(** * CherryMusic: index reconciliation, metadata extraction, artwork lookup

    A shallow embedding of [storage/models.py] and of [AlbumArtView.get]
    and [FileViewSet.stream] from [api/views.py].  The database is a pair of
    tables (lists of rows with autoincrement primary keys), the filesystem
    is a finite tree, and Python exceptions are an explicit error
    alternative that carries the database as it was when the exception left
    the function.

    A Python [str] is kept as the string of its code points, one character
    for each; the strings covered are those whose code points are below 256.
    What depends on the Unicode tables beyond that ([str.lower], name
    normalisation) is a parameter. *)

From Stdlib Require Import List String Ascii Bool Arith PeanoNat ZArith Lia.
Import ListNotations.
Open Scope string_scope.
Open Scope list_scope.
Open Scope nat_scope.

Set Implicit Arguments.

(** ** Paths and the filesystem *)

(** A [pathlib.Path] is kept as its list of segments below the filesystem
    root.  Segments are the strings the code joins with [/]: a [Directory.path],
    a [File.filename], a directory entry name. *)
Definition Path := list string.

(** [p / s] for one segment [s]: pathlib drops an empty segment and a [.]
    segment, and keeps [..] for the operating system to resolve. *)
Definition joinpath (p : Path) (s : string) : Path :=
  if (s =? "")%string || (s =? ".")%string then p else p ++ [s].

(** [str(p)] of an absolute path. *)
Definition str_of_path (p : Path) : string :=
  match p with
  | [] => "/"
  | _ => String.concat "" (map (fun s => String.append "/" s) p)
  end.

(** [p / s1 / ... / sn]. *)
Definition joins (p : Path) (segs : list string) : Path :=
  fold_left joinpath segs p.

(** [os.path.basename]: the text after the last separator. *)
Definition basename (p : Path) : string := last p "".

Unset Elimination Schemes.
Inductive fsnode : Type :=
| FsFile : fsnode
| FsOther : fsnode
| FsDir : list (string * fsnode) -> fsnode.
Set Elimination Schemes.

Fixpoint lookup_entry (s : string) (es : list (string * fsnode)) : option fsnode :=
  match es with
  | [] => None
  | (n, x) :: es' => if (n =? s)%string then Some x else lookup_entry s es'
  end.

(** Name resolution as the operating system does it: [..] goes back to the
    directory above (the root is its own parent), any other segment is
    looked up in the current directory, and a segment below something that
    is not a directory fails. *)
Fixpoint walk (stack : list fsnode) (cur : fsnode) (segs : Path) : option fsnode :=
  match segs with
  | [] => Some cur
  | s :: rest =>
      match cur with
      | FsDir es =>
          if (s =? "..")%string then
            match stack with
            | [] => walk [] cur rest
            | up :: stack' => walk stack' up rest
            end
          else
            match lookup_entry s es with
            | Some x => walk (cur :: stack) x rest
            | None => None
            end
      | _ => None
      end
  end.

Definition stat (root : fsnode) (p : Path) : option fsnode := walk [] root p.

Definition path_exists (root : fsnode) (p : Path) : bool :=
  match stat root p with Some _ => true | None => false end.

Definition is_file (root : fsnode) (p : Path) : bool :=
  match stat root p with Some FsFile => true | _ => false end.

Definition is_dir (root : fsnode) (p : Path) : bool :=
  match stat root p with Some (FsDir _) => true | _ => false end.

(** [Path.iterdir]: the entry names of a directory, or the OS error. *)
Inductive listing : Type :=
| Listed : list string -> listing
| NoSuchPath : listing
| NotADirectory : listing.

Definition iterdir (root : fsnode) (p : Path) : listing :=
  match stat root p with
  | Some (FsDir es) => Listed (map fst es)
  | Some _ => NotADirectory
  | None => NoSuchPath
  end.

(** ** Artwork resolution: the body of [AlbumArtView.get] *)

Module AlbumArt.

Definition bytes := list Byte.byte.

(** Python truthiness of a [bytes] value. *)
Definition truthy_bytes (b : bytes) : bool :=
  match b with [] => false | _ => true end.

(** [TinyTag.get(path, image=True)] followed by [tag.get_image()]: the tag
    reader either raises [TinyTagException] or yields a tag whose image is
    [None] or some bytes. *)
Inductive tag_read : Type :=
| TagError : tag_read
| TagImage : option bytes -> tag_read.

(** The cache directory: the files [os.path.exists] sees and [open] reads
    and writes, by their path string. *)
Definition cache := list (string * bytes).

Fixpoint cache_read (c : cache) (p : string) : option bytes :=
  match c with
  | [] => None
  | (q, b) :: c' => if (q =? p)%string then Some b else cache_read c' p
  end.

Definition cache_write (c : cache) (p : string) (b : bytes) : cache :=
  (p, b) :: c.

(** What the view did to its collaborators, in order. *)
Inductive event : Type :=
| EvTagRead : string -> event
| EvFetchLocal : string -> event
| EvFetchOnline : string -> event
| EvCacheWrite : string -> bytes -> event.

Inductive response : Type :=
| ImageResponse : bytes -> response
| RaiseNotFound : response
| RaiseHttp404 : response
| RaiseTinyTagException : response.

Record outcome : Type := mkOutcome {
  o_response : response;
  o_cache : cache;
  o_trace : list event
}.

Section View.

(** The collaborators that live outside [api/views.py]. *)
Variable header : Type.
Variable header_truthy : header -> bool.
Variable tinytag_image : string -> tag_read.
Variable albumArtFilePath : string -> string.
Variable fetchLocal : string -> header * bytes * bool.
(** [fetcher.fetch(keywords)]: [None] when it raises. *)
Variable fetch : string -> option (header * bytes).
(** [config.get('media.fetch_album_art', False)]. *)
Variable fetch_album_art : bool.

Variable root : fsnode.

(** The steps after the embedded-image check, on the (possibly retargeted)
    path: cache, local folder, online source. *)
Definition get_from (file_path : Path) (c : cache) (tr : list event) : outcome :=
  let file_cache_path := albumArtFilePath (str_of_path file_path) in
  match cache_read c file_cache_path with
  | Some b => mkOutcome (ImageResponse b) c tr
  | None =>
      let '(hdr, data, resized) := fetchLocal (str_of_path file_path) in
      let tr := tr ++ [EvFetchLocal (str_of_path file_path)] in
      if header_truthy hdr then
        if resized then
          mkOutcome (ImageResponse data) (cache_write c file_cache_path data)
                    (tr ++ [EvCacheWrite file_cache_path data])
        else mkOutcome (ImageResponse data) c tr
      else if fetch_album_art then
        let keywords := basename file_path in
        let tr := tr ++ [EvFetchOnline keywords] in
        match fetch keywords with
        | Some (hdr', data') =>
            if header_truthy hdr' then
              mkOutcome (ImageResponse data') (cache_write c file_cache_path data')
                        (tr ++ [EvCacheWrite file_cache_path data'])
            else mkOutcome RaiseHttp404 c tr
        | None => mkOutcome RaiseHttp404 c tr
        end
      else mkOutcome RaiseHttp404 c tr
  end.

(** Lines 159 to 200 of [AlbumArtView.get]: what the view does with
    [file_path] once line 158 has given it a value.  The whole view is
    [AlbumArtView.get] below. *)
Definition get_body (file_path : Path) (c : cache) : outcome :=
  if negb (path_exists root file_path) then mkOutcome RaiseNotFound c []
  else if is_file root file_path then
    match tinytag_image (str_of_path file_path) with
    | TagError =>
        mkOutcome RaiseTinyTagException c [EvTagRead (str_of_path file_path)]
    | TagImage img =>
        let tr := [EvTagRead (str_of_path file_path)] in
        match img with
        | Some b =>
            if truthy_bytes b then mkOutcome (ImageResponse b) c tr
            else get_from (file_path ++ [".."]) c tr
        | None => get_from (file_path ++ [".."]) c tr
        end
    end
  else get_from file_path c [].

End View.

End AlbumArt.

(** ** Metadata extraction and entity deduplication *)

Module Meta.

Record Artist : Type := mkArtist {
  artist_id : nat; artist_name : string; artist_norm_name : string }.

Record Album : Type := mkAlbum {
  album_id : nat; album_name : string; album_albumartist : option nat }.

Record Genre : Type := mkGenre { genre_id : nat; genre_name : string }.

Record MetaData (D : Type) : Type := mkMetaData {
  md_id : nat;
  md_track : option Z;
  md_track_total : option Z;
  md_title : option string;
  md_artist : option nat;
  md_album : option nat;
  md_year : option Z;
  md_genre : option nat;
  md_duration : option D }.

(** What [TinyTag.get] hands back: every field is a string or [None],
    [duration] is a float, kept abstract as [D]. *)
Record Tag (D : Type) : Type := mkTag {
  tag_artist : option string;
  tag_albumartist : option string;
  tag_album : option string;
  tag_genre : option string;
  tag_title : option string;
  tag_track : option string;
  tag_track_total : option string;
  tag_year : option string;
  tag_duration : option D }.

Inductive exn : Type :=
| MultipleObjectsReturned : exn
| ValueError : exn.

(** *** Python's [int(str)] *)

(** The blanks [int] strips from both ends: the ASCII blanks and, of the
    code points below 256, NEXT LINE (133) and NO-BREAK SPACE (160). *)
Definition is_space (c : ascii) : bool :=
  let n := nat_of_ascii c in
  (n =? 32)%nat || ((9 <=? n) && (n <=? 13)) || (n =? 133)%nat || (n =? 160)%nat.

Definition digit_val (c : ascii) : option Z :=
  let n := nat_of_ascii c in
  if (48 <=? n) && (n <=? 57) then Some (Z.of_nat (n - 48)) else None.

Fixpoint drop_spaces (l : list ascii) : list ascii :=
  match l with
  | c :: l' => if is_space c then drop_spaces l' else l
  | [] => []
  end.

Definition strip (l : list ascii) : list ascii :=
  rev (drop_spaces (rev (drop_spaces l))).

(** Decimal digits, with single underscores allowed between two digits. *)
Fixpoint parse_digits (acc : Z) (after_digit : bool) (l : list ascii) : option Z :=
  match l with
  | [] => if after_digit then Some acc else None
  | c :: l' =>
      match digit_val c with
      | Some d => parse_digits (10 * acc + d)%Z true l'
      | None =>
          if (c =? "_")%char && after_digit then parse_digits acc false l'
          else None
      end
  end.

(** [int(s)] for a text of code points below 256, among which the decimal
    digits are 0 to 9: blanks are stripped from both ends, one sign may
    lead, and the digits may be separated by single underscores.  [None]
    stands for [ValueError]. *)
Definition py_int (s : string) : option Z :=
  match strip (list_ascii_of_string s) with
  | c :: l =>
      if (c =? "-")%char then option_map Z.opp (parse_digits 0 false l)
      else if (c =? "+")%char then parse_digits 0 false l
      else parse_digits 0 false (c :: l)
  | [] => None
  end.

(** The text holds ASCII characters only. *)
Definition is_ascii (s : string) : bool :=
  forallb (fun c => nat_of_ascii c <? 128) (list_ascii_of_string s).

(** Truthiness of a value that is [None] or a string. *)
Definition truthy (s : option string) : bool :=
  match s with
  | Some EmptyString => false
  | Some _ => true
  | None => false
  end.

Section Tables.

Variable D : Type.
(** [utils.natural_language.normalize_name]. *)
Variable normalize_name : string -> string.
(** [TinyTag.get(path)]: [None] when it raises [TinyTagException]. *)
Variable tinytag_get : string -> option (Tag D).

Record db : Type := mkDb {
  artists : list Artist;
  albums : list Album;
  genres : list Genre;
  metadata : list (MetaData D);
  next_artist : nat;
  next_album : nat;
  next_genre : nat;
  next_metadata : nat }.

(** A computation over the tables that may raise. *)
Inductive result (A : Type) : Type :=
| Ok : A -> db -> result A
| Raise : exn -> db -> result A.

Definition M (A : Type) : Type := db -> result A.

Definition ret {A} (a : A) : M A := fun s => Ok a s.
Definition raise {A} (e : exn) : M A := fun s => Raise A e s.
Definition bind {A B} (m : M A) (k : A -> M B) : M B :=
  fun s => match m s with
           | Ok a s' => k a s'
           | Raise _ e s' => Raise B e s'
           end.

Notation "x <- m ;; k" := (bind m (fun x => k))
  (at level 61, m at next level, right associativity).

(** [Artist.objects.get_or_create(norm_name=..., defaults=dict(name=...))];
    the row is written through [Artist.save], which recomputes
    [norm_name] from [name]. *)
Definition artist_get_or_create (norm_name name : string) : M Artist :=
  fun s =>
    match filter (fun a => (artist_norm_name a =? norm_name)%string) (artists s) with
    | [a] => Ok a s
    | _ :: _ :: _ => Raise _ MultipleObjectsReturned s
    | [] =>
        let a := mkArtist (next_artist s) name (normalize_name name) in
        Ok a (mkDb (artists s ++ [a]) (albums s) (genres s) (metadata s)
                   (S (next_artist s)) (next_album s) (next_genre s)
                   (next_metadata s))
    end.

(** [Artist.get_for_name]. *)
Definition artist_get_for_name (name : option string) : M (option Artist) :=
  match name with
  | None => ret None
  | Some EmptyString => ret None
  | Some name =>
      let norm_name := normalize_name name in
      match norm_name with
      | EmptyString => ret None
      | _ =>
          a <- artist_get_or_create norm_name name ;;
          ret (Some a)
      end
  end.

Definition option_nat_eqb (a b : option nat) : bool :=
  match a, b with
  | Some x, Some y => (x =? y)%nat
  | None, None => true
  | _, _ => false
  end.

(** [Album.get_for_name]: looked up by the literal pair. *)
Definition album_get_for_name (album : string) (albumartist : option Artist)
  : M Album :=
  fun s =>
    let aid := option_map artist_id albumartist in
    match filter (fun a => (album_name a =? album)%string
                           && option_nat_eqb (album_albumartist a) aid)
                 (albums s) with
    | [a] => Ok a s
    | _ :: _ :: _ => Raise _ MultipleObjectsReturned s
    | [] =>
        let a := mkAlbum (next_album s) album aid in
        Ok a (mkDb (artists s) (albums s ++ [a]) (genres s) (metadata s)
                   (next_artist s) (S (next_album s)) (next_genre s)
                   (next_metadata s))
    end.

(** [Genre.get_for_name]: the key is normalized, and [Genre.save]
    normalizes what it stores once more. *)
Definition genre_get_for_name (genre : string) : M Genre :=
  fun s =>
    let key := normalize_name genre in
    match filter (fun g => (genre_name g =? key)%string) (genres s) with
    | [g] => Ok g s
    | _ :: _ :: _ => Raise _ MultipleObjectsReturned s
    | [] =>
        let g := mkGenre (next_genre s) (normalize_name key) in
        Ok g (mkDb (artists s) (albums s) (genres s ++ [g]) (metadata s)
                   (next_artist s) (next_album s) (S (next_genre s))
                   (next_metadata s))
    end.

(** [int(x) if x else None]. *)
Definition int_or_none (x : option string) : M (option Z) :=
  match x with
  | Some s =>
      if truthy x then
        match py_int s with
        | Some z => ret (Some z)
        | None => raise ValueError
        end
      else ret None
  | None => ret None
  end.

Definition metadata_create (track track_total : option Z) (title : option string)
    (artist album : option nat) (year : option Z) (genre : option nat)
    (duration : option D) : M (MetaData D) :=
  fun s =>
    let m := mkMetaData (next_metadata s) track track_total title artist album
                        year genre duration in
    Ok m (mkDb (artists s) (albums s) (genres s) (metadata s ++ [m])
               (next_artist s) (next_album s) (next_genre s)
               (S (next_metadata s))).

Definition or_else {A} (a b : option A) : option A :=
  match a with Some _ => a | None => b end.

(** [MetaData.create_from_path]. *)
Definition create_from_path (path : string) : M (option (MetaData D)) :=
  match tinytag_get path with
  | None => ret None
  | Some tag =>
      artist <- artist_get_for_name (tag_artist tag) ;;
      albumartist <- artist_get_for_name (tag_albumartist tag) ;;
      album <- (if truthy (tag_album tag) then
                  match tag_album tag with
                  | Some n =>
                      a <- album_get_for_name n (or_else albumartist artist) ;;
                      ret (Some a)
                  | None => ret None
                  end
                else ret None) ;;
      genre <- (if truthy (tag_genre tag) then
                  match tag_genre tag with
                  | Some n => g <- genre_get_for_name n ;; ret (Some g)
                  | None => ret None
                  end
                else ret None) ;;
      track <- int_or_none (tag_track tag) ;;
      track_total <- int_or_none (tag_track_total tag) ;;
      year <- int_or_none (tag_year tag) ;;
      m <- metadata_create track track_total (tag_title tag)
             (option_map artist_id artist) (option_map album_id album)
             year (option_map genre_id genre) (tag_duration tag) ;;
      ret (Some m)
  end.

(** The tables as a computation left them, whether it returned or raised. *)
Definition state_of {A} (r : result A) : db :=
  match r with
  | Ok _ s => s
  | Raise _ _ s => s
  end.

(** [s'] holds every row of [s], in place, possibly followed by new
    [Artist], [Album] and [Genre] rows; the [MetaData] table and its next
    key are the same. *)
Definition entities_appended (s s' : db) : Prop :=
  (exists l, artists s' = artists s ++ l) /\
  (exists l, albums s' = albums s ++ l) /\
  (exists l, genres s' = genres s ++ l) /\
  metadata s' = metadata s /\
  next_metadata s' = next_metadata s.

End Tables.

End Meta.

(** ** The directory and file index: [Directory], [File] *)

Module Storage.

Record Directory : Type := mkDirectory {
  dir_id : nat; dir_parent : option nat; dir_path : string }.

Record File : Type := mkFile {
  file_id : nat;
  file_filename : string;
  file_directory : nat;
  file_meta_indexed_at : option nat;
  file_meta_data : option nat }.

Record db : Type := mkDb {
  directories : list Directory;
  files : list File;
  next_directory : nat;
  next_file : nat }.

Inductive exn : Type :=
| MultipleObjectsReturned : exn
| ProtectedError : exn
| FileNotFoundError : exn
| NotADirectoryError : exn
| ValueError : exn
| RecursionError : exn
| AttributeError : exn.

Inductive result (A : Type) : Type :=
| Ok : A -> db -> result A
| Raise : exn -> db -> result A.

Arguments Raise {A} _ _.

Definition M (A : Type) : Type := db -> result A.

Definition ret {A} (a : A) : M A := fun s => Ok a s.
Definition raise {A} (e : exn) : M A := fun s => Raise e s.
Definition bind {A B} (m : M A) (k : A -> M B) : M B :=
  fun s => match m s with
           | Ok a s' => k a s'
           | Raise e s' => Raise e s'
           end.

Notation "x <- m ;; k" := (bind m (fun x => k))
  (at level 61, m at next level, right associativity).

(** The tables as a computation left them, whether it returned or raised. *)
Definition state_of {A} (r : result A) : db :=
  match r with
  | Ok _ s => s
  | Raise _ s => s
  end.

(** The four counters [reindex] returns:
    deleted files, deleted directories, indexed files, indexed directories. *)
Definition counters : Type := (nat * nat * nat * nat)%type.

Definition add_counters (a b : counters) : counters :=
  let '(a1, a2, a3, a4) := a in
  let '(b1, b2, b3, b4) := b in
  (a1 + b1, a2 + b2, a3 + b3, a4 + b4).

(** *** [str.endswith] *)

(** [s.endswith(suffix)]: [suffix] is [s] or ends what follows the first
    character of [s]. *)
Fixpoint endswith (s suffix : string) : bool :=
  (s =? suffix)%string ||
  match s with
  | EmptyString => false
  | String _ s' => endswith s' suffix
  end.

(** *** Queries *)

Definition is_child_of (self : Directory) (d : Directory) : bool :=
  match dir_parent d with
  | Some p => p =? dir_id self
  | None => false
  end.

(** [Directory.objects.filter(parent=self)]. *)
Definition subdirectories (self : Directory) (s : db) : list Directory :=
  filter (is_child_of self) (directories s).

(** [File.objects.filter(directory=self)]: the [File] rows that point at
    [self] through [File.directory]. *)
Definition files_of (self : Directory) (s : db) : list File :=
  filter (fun f => file_directory f =? dir_id self) (files s).

(** [self.file_set] on a [Directory].  [File.directory] is declared with
    [related_name='files'], so the reverse accessor of a directory is
    [files]; a [Directory] has no attribute [file_set], and reading it
    raises [AttributeError]. *)
Definition file_set (self : Directory) : M (list File) :=
  raise AttributeError.

(** [Directory.get_basedir()], which the views call.  The class
    [Directory] defines [__str__], [absolute_path], [relative_path],
    [get_sub_path_directories], [listdir], [exists] and [reindex], and
    [models.Model] gives it no attribute of that name: the lookup raises
    [AttributeError]. *)
Definition get_basedir : M Directory := raise AttributeError.

(** The rows [Directory.objects.get(parent=self, path=name)] selects from. *)
Definition dirs_named (self : Directory) (name : string) (s : db) : list Directory :=
  filter (fun d => is_child_of self d && (dir_path d =? name)%string)
         (directories s).

(** The rows [File.objects.get(filename=name, directory=self)] selects from. *)
Definition files_named (self : Directory) (name : string) (s : db) : list File :=
  filter (fun f => (file_filename f =? name)%string
                   && (file_directory f =? dir_id self))
         (files s).

(** *** Writes *)

Definition save_directory (d : Directory) : M unit :=
  fun s => Ok tt (mkDb (directories s ++ [d]) (files s)
                       (S (next_directory s)) (next_file s)).

Definition save_file (f : File) : M unit :=
  fun s => Ok tt (mkDb (directories s) (files s ++ [f])
                       (next_directory s) (S (next_file s))).

(** [f.delete()] on a [File].  No relation declared in [storage/models.py]
    points at a [File], so the row is simply removed. *)
Definition delete_file (f : File) : M unit :=
  fun s => Ok tt (mkDb (directories s)
                       (filter (fun x => negb (file_id x =? file_id f)) (files s))
                       (next_directory s) (next_file s)).

(** [d.delete()] on a [Directory]: both relations that point at a directory
    ([Directory.parent], [File.directory]) are [on_delete=PROTECT]. *)
Definition delete_directory (d : Directory) : M unit :=
  fun s =>
    match subdirectories d s, files_of d s with
    | [], [] =>
        Ok tt (mkDb (filter (fun x => negb (dir_id x =? dir_id d)) (directories s))
                    (files s) (next_directory s) (next_file s))
    | _, _ => Raise ProtectedError s
    end.

Section Index.

(** [settings.SUPPORTED_FILETYPES]. *)
Variable SUPPORTED_FILETYPES : list string.
(** [str.lower]. *)
Variable lower : string -> string.
(** [Path(self.path)] for the base directory. *)
Variable parse_path : string -> Path.
Variable root : fsnode.

(** [File.indexable]. *)
Definition indexable (filename : string) : bool :=
  existsb (endswith (lower filename)) SUPPORTED_FILETYPES.

(** [Directory.absolute_path]: up the parent chain to the base directory.
    [fuel] bounds the depth of the Python recursion. *)
Fixpoint absolute_path (fuel : nat) (s : db) (d : Directory) : option Path :=
  match fuel with
  | 0 => None
  | S n =>
      match dir_parent d with
      | None => Some (parse_path (dir_path d))
      | Some pid =>
          match find (fun x => dir_id x =? pid) (directories s) with
          | Some p =>
              option_map (fun pp => joinpath pp (dir_path d)) (absolute_path n s p)
          | None => None
          end
      end
  end.

(** [Directory.get_sub_path_directories].  [here] is [self.absolute_path()];
    the directory found or made for a segment has [self] as its parent, so
    its own absolute path is [here / current]. *)
Fixpoint get_sub_path_directories (self : Directory) (here : Path)
    (path_elements : list string) : M (list Directory) :=
  match path_elements with
  | [] => raise ValueError
  | current :: rest =>
      dir <- (fun s =>
                match dirs_named self current s with
                | [d] => Ok d s
                | _ :: _ :: _ => Raise MultipleObjectsReturned s
                | [] =>
                    let dir := mkDirectory (next_directory s)
                                           (Some (dir_id self)) current in
                    if path_exists root (joinpath here current)
                    then (_ <- save_directory dir ;; ret dir) s
                    else Raise FileNotFoundError s
                end) ;;
      match rest with
      | [] => ret [dir]
      | _ :: _ =>
          tl <- get_sub_path_directories dir (joinpath here current) rest ;;
          ret (dir :: tl)
      end
  end.


(** *** [Directory.reindex] *)

Definition query {A} (q : db -> A) : M A := fun s => Ok (q s) s.

(** [for f in self.file_set.all(): if not f.exists(): f.delete(); ...]:
    the rows are those the query returned when the loop began. *)
Fixpoint prune_files (here : Path) (fs : list File) (deleted : nat) : M nat :=
  match fs with
  | [] => ret deleted
  | f :: fs' =>
      if path_exists root (joinpath here (file_filename f))
      then prune_files here fs' deleted
      else _ <- delete_file f ;; prune_files here fs' (S deleted)
  end.

(** [for d in Directory.objects.filter(parent=self): if not d.exists(): ...]. *)
Fixpoint prune_directories (here : Path) (ds : list Directory) (deleted : nat)
  : M nat :=
  match ds with
  | [] => ret deleted
  | d :: ds' =>
      if path_exists root (joinpath here (dir_path d))
      then prune_directories here ds' deleted
      else _ <- delete_directory d ;; prune_directories here ds' (S deleted)
  end.

(** [Directory.objects.get_or_create(parent=self, path=name)]. *)
Definition get_or_create_directory (self : Directory) (name : string)
  : M (Directory * bool) :=
  fun s =>
    match dirs_named self name s with
    | [d] => Ok (d, false) s
    | _ :: _ :: _ => Raise MultipleObjectsReturned s
    | [] =>
        let d := mkDirectory (next_directory s) (Some (dir_id self)) name in
        (_ <- save_directory d ;; ret (d, true)) s
    end.

(** The file branch of the scan: [File.objects.get] or [f.save()]. *)
Definition index_file (self : Directory) (name : string) (acc : counters)
  : M counters :=
  fun s =>
    match files_named self name s with
    | [_] => Ok acc s
    | _ :: _ :: _ => Raise MultipleObjectsReturned s
    | [] =>
        (_ <- save_file (mkFile (next_file s) name (dir_id self) None None) ;;
         ret (add_counters acc (0, 0, 1, 0))) s
    end.

(** The body of [for sub_path in Path(self.absolute_path()).iterdir()] for
    the entry called [name]; [rec] is [sub_dir.reindex()]. *)
Definition scan_entry (rec : Directory -> Path -> M counters)
    (recursively : bool) (self : Directory) (here : Path) (name : string)
    (acc : counters) : M counters :=
  let sub_path := here ++ [name] in
  if is_file root sub_path then
    if indexable name then index_file self name acc else ret acc
  else if is_dir root sub_path then
    if (name =? ".")%string then ret acc
    else
      r <- get_or_create_directory self name ;;
      let '(sub_dir, created) := r in
      let acc := if created then add_counters acc (0, 0, 0, 1) else acc in
      if recursively then
        c <- rec sub_dir (joinpath here (dir_path sub_dir)) ;;
        ret (add_counters acc c)
      else ret acc
  else ret acc.

Fixpoint scan (rec : Directory -> Path -> M counters) (recursively : bool)
    (self : Directory) (here : Path) (names : list string) (acc : counters)
  : M counters :=
  match names with
  | [] => ret acc
  | name :: names' =>
      acc' <- scan_entry rec recursively self here name acc ;;
      scan rec recursively self here names' acc'
  end.

Definition reindex_body (rec : Directory -> Path -> M counters)
    (recursively : bool) (self : Directory) (here : Path) : M counters :=
  fs <- file_set self ;;
  deleted_files <- prune_files here fs 0 ;;
  ds <- query (subdirectories self) ;;
  deleted_directories <- prune_directories here ds 0 ;;
  names <- match iterdir root here with
           | Listed l => ret l
           | NoSuchPath => raise FileNotFoundError
           | NotADirectory => raise NotADirectoryError
           end ;;
  scan rec recursively self here names
       (deleted_files, deleted_directories, 0, 0).

(** [Directory.reindex].  The first statement after the counters reads
    [self.file_set] (in [reindex_body]).  [here] is [self.absolute_path()],
    which the loops that follow would work out once and keep in
    [_cached_absolute_path]; [fuel] is the depth to which [sub_dir.reindex()]
    may still nest. *)
Fixpoint reindex (fuel : nat) (recursively : bool) (self : Directory)
    (here : Path) : M counters :=
  reindex_body
    (match fuel with
     | 0 => fun _ _ => raise RecursionError
     | S n => reindex n true
     end)
    recursively self here.

(** [Directory.relative_path]: the path below the base directory. *)
Fixpoint relative_path (fuel : nat) (s : db) (d : Directory) : option Path :=
  match fuel with
  | 0 => None
  | S n =>
      match dir_parent d with
      | None => Some []
      | Some pid =>
          match find (fun x => dir_id x =? pid) (directories s) with
          | Some p =>
              option_map (fun pp => joinpath pp (dir_path d)) (relative_path n s p)
          | None => None
          end
      end
  end.

(** [ds] is a chain of directories, each the child of the one before it,
    the first one the child of the directory with key [p]. *)
Fixpoint linked (p : nat) (ds : list Directory) : Prop :=
  match ds with
  | [] => True
  | d :: ds' => dir_parent d = Some p /\ linked (dir_id d) ds'
  end.

(** *** Well-formed tables *)

(** The rows a directory owns, by its primary key. *)
Definition files_in (i : nat) (s : db) : list File :=
  filter (fun f => file_directory f =? i) (files s).

Definition dirs_in (i : nat) (s : db) : list Directory :=
  filter (fun d => match dir_parent d with
                   | Some p => p =? i
                   | None => false
                   end) (directories s).

(** What the persistence layer guarantees: primary keys are unique and
    below the next key to be handed out, and a row was saved after the row
    it points to. *)
Record wf (s : db) : Prop := mkWf {
  wf_dir_ids : NoDup (map dir_id (directories s));
  wf_dir_fresh : forall d, In d (directories s) -> dir_id d < next_directory s;
  wf_file_ids : NoDup (map file_id (files s));
  wf_file_fresh : forall f, In f (files s) -> file_id f < next_file s;
  wf_parent_lt : forall d p,
      In d (directories s) -> dir_parent d = Some p -> p < dir_id d }.

(** [s'] was reached from [s] by deleting rows and saving new ones. *)
Record grows (s s' : db) : Prop := mkGrows {
  grows_next_dir : next_directory s <= next_directory s';
  grows_next_file : next_file s <= next_file s';
  grows_dirs : forall d, In d (directories s') ->
                         In d (directories s) \/ next_directory s <= dir_id d;
  grows_files : forall f, In f (files s') ->
                          In f (files s) \/ next_file s <= file_id f }.

(** Directory [i] owns the same rows in [s] and in [s']. *)
Definition same_view (s s' : db) (i : nat) : Prop :=
  files_in i s = files_in i s' /\ dirs_in i s = dirs_in i s'.

End Index.

End Storage.

(** ** The library used in the concrete scenarios *)

Module Scenario.

(** [/lib/Album] holding [track.mp3] and [cover.jpg]. *)
Definition lib_fs : fsnode :=
  FsDir [("lib", FsDir [("Album", FsDir [("track.mp3", FsFile);
                                          ("cover.jpg", FsFile)])])].

Definition album_path : Path := ["lib"; "Album"].
Definition track_path : Path := ["lib"; "Album"; "track.mp3"].

(** A tag reader that finds no embedded image anywhere. *)
Definition no_image (_ : string) : AlbumArt.tag_read := AlbumArt.TagImage None.

(** A tag reader for which every file is unreadable. *)
Definition unreadable (_ : string) : AlbumArt.tag_read := AlbumArt.TagError.

(** A cache path derivation that keeps different paths apart. *)
Definition thumb_path (p : string) : string := String.append "/cache" p.

Definition cover_bytes : AlbumArt.bytes := [Byte.x89; Byte.x50; Byte.x4e].
Definition cached_bytes : AlbumArt.bytes := [Byte.x42].

(** A local scan that finds a cover wherever it looks. *)
Definition local_hit (resized : bool) (_ : string)
  : bool * AlbumArt.bytes * bool := (true, cover_bytes, resized).

Definition no_fetch (_ : string) : option (bool * AlbumArt.bytes) := None.

(** The local scan on [lib_fs]: the only folder that holds artwork is
    [/lib/Album], with [cover.jpg]. *)
Definition local_in_album (p : string) : bool * AlbumArt.bytes * bool :=
  if (p =? "/lib/Album")%string then (true, cover_bytes, false)
  else (false, [], false).

(** Tags as a reader returns them for a track whose year field carries a
    full date. *)
Definition dated_tag : Meta.Tag nat :=
  Meta.mkTag (Some "Radiohead") None (Some "Kid A") None (Some "Idioteque")
             (Some "8") (Some "10") (Some "2000-10-02") (Some 309).

Definition read_dated (_ : string) : option (Meta.Tag nat) := Some dated_tag.
Definition read_fails (_ : string) : option (Meta.Tag nat) := None.

Definition empty_meta_db : Meta.db nat := Meta.mkDb [] [] [] [] 1 1 1 1.

(** A name normalisation for the scenarios: the capitals A to Z become
    small letters, every other character stays. *)
Definition fold_ascii (c : ascii) : ascii :=
  let n := nat_of_ascii c in
  if (65 <=? n) && (n <=? 90) then ascii_of_nat (n + 32) else c.

Fixpoint fold_case (s : string) : string :=
  match s with
  | EmptyString => EmptyString
  | String c s' => String (fold_ascii c) (fold_case s')
  end.

(** The base directory row of the library at [/lib], and the index that
    holds nothing else. *)
Definition basedir : Storage.Directory := Storage.mkDirectory 1 None "/lib".
Definition base_db : Storage.db := Storage.mkDb [basedir] [] 2 1.

(** The allow-list of the scenarios. *)
Definition audio_types : list string := ["mp3"; "ogg"; "flac"].

(** [/lib] with nothing in it. *)
Definition empty_lib_fs : fsnode := FsDir [("lib", FsDir [])].

(** [/lib] holding [cover.jpg] and [track.flac]. *)
Definition flac_fs : fsnode :=
  FsDir [("lib", FsDir [("cover.jpg", FsFile); ("track.flac", FsFile)])].

(** An index that still knows [/lib/Album] and a track in it. *)
Definition album_dir : Storage.Directory :=
  Storage.mkDirectory 2 (Some 1) "Album".
Definition album_track : Storage.File :=
  Storage.mkFile 1 "track.mp3" 2 None None.
Definition stale_db : Storage.db :=
  Storage.mkDb [basedir; album_dir] [album_track] 3 2.

(** An index that still knows [/lib/Album], with nothing in it. *)
Definition stale_empty_db : Storage.db :=
  Storage.mkDb [basedir; album_dir] [] 3 1.

(** Tags with plain numbers, the row an extraction makes of them on empty
    tables, and the tables afterwards. *)
Definition plain_tag : Meta.Tag nat :=
  Meta.mkTag (Some "Radiohead") None (Some "Kid A") None (Some "Idioteque")
             (Some "8") (Some "10") (Some "2000") (Some 309).

Definition read_plain (_ : string) : option (Meta.Tag nat) := Some plain_tag.

Definition plain_row : Meta.MetaData nat :=
  Meta.mkMetaData 1 (Some 8%Z) (Some 10%Z) (Some "Idioteque") (Some 1)
                  (Some 1) (Some 2000%Z) None (Some 309).

Definition plain_db : Meta.db nat :=
  Meta.mkDb [Meta.mkArtist 1 "Radiohead" "Radiohead"]
            [Meta.mkAlbum 1 "Kid A" (Some 1)] [] [plain_row] 2 2 1 2.

(** An index of [flac_fs] that holds the row of [track.flac], without
    metadata so far. *)
Definition kept_db : Storage.db :=
  Storage.mkDb [basedir] [Storage.mkFile 1 "track.flac" 1 None None] 2 3.

(** [/lib/Artist/Album], the rows of the two directories, and the index
    once both are known. *)
Definition nested_fs : fsnode :=
  FsDir [("lib", FsDir [("Artist", FsDir [("Album", FsDir [])])])].

Definition artist_dir : Storage.Directory :=
  Storage.mkDirectory 2 (Some 1) "Artist".
Definition nested_album_dir : Storage.Directory :=
  Storage.mkDirectory 3 (Some 2) "Album".
Definition nested_db : Storage.db :=
  Storage.mkDb [basedir; artist_dir; nested_album_dir] [] 4 1.

End Scenario.

(** ** Streaming a file: [FileViewSet.stream] *)

Module Stream.

Definition bytes := list Byte.byte.

(** The generator [file_iterator] once the file is open: [fh.read(chunk_size)]
    hands over the next [chunk_size] bytes, fewer at the end of the file,
    none after it; an empty read ends the loop.  [fuel] bounds the number
    of reads. *)
Fixpoint file_iterator_from (fuel : nat) (rest : bytes) (chunk_size : nat)
  : list bytes :=
  match fuel with
  | 0 => []
  | S n =>
      match firstn chunk_size rest with
      | [] => []
      | data => data :: file_iterator_from n (skipn chunk_size rest) chunk_size
      end
  end.

(** A file of [n] bytes is read at most [n + 1] times. *)
Definition file_iterator (content : bytes) (chunk_size : nat) : list bytes :=
  file_iterator_from (S (List.length content)) content chunk_size.

End Stream.

(** ** Filling in metadata: [File.update_metadata],
    [File.index_unindexed_metadata] *)

Module Backfill.

Section Run.

Variable D : Type.
Variable normalize_name : string -> string.
Variable tinytag_get : string -> option (Meta.Tag D).
Variable parse_path : string -> Path.
(** The depth to which [absolute_path] may climb. *)
Variable depth : nat.
(** [timezone.now()], by the number of times the clock was read before. *)
Variable now : nat -> nat.

(** Both groups of tables, and how often the clock has been read. *)
Record world : Type := mkWorld {
  meta : Meta.db D;
  index : Storage.db;
  ticks : nat }.

(** [NoPath]: [self.absolute_path()] did not return, because a row of the
    chain is missing or the chain is deeper than [depth]. *)
Inductive exn : Type :=
| MetaError : Meta.exn -> exn
| NoPath : exn.

Inductive outcome : Type :=
| Done : world -> outcome
| Failed : exn -> world -> outcome.

(** [File.absolute_path]: [self.directory.absolute_path() / self.filename]. *)
Definition file_absolute_path (s : Storage.db) (f : Storage.File)
  : option Path :=
  match find (fun d => Storage.dir_id d =? Storage.file_directory f)
             (Storage.directories s) with
  | Some d =>
      option_map (fun p => joinpath p (Storage.file_filename f))
                 (Storage.absolute_path parse_path depth s d)
  | None => None
  end.

(** [self.save()] on a [File] that has a primary key: the row with that key
    is overwritten; were there none, the row would be inserted. *)
Definition save (f : Storage.File) (s : Storage.db) : Storage.db :=
  let same x := Storage.file_id x =? Storage.file_id f in
  Storage.mkDb (Storage.directories s)
               (if existsb same (Storage.files s)
                then map (fun x => if same x then f else x) (Storage.files s)
                else Storage.files s ++ [f])
               (Storage.next_directory s) (Storage.next_file s).

(** [File.update_metadata]. *)
Definition update_metadata (f : Storage.File) (w : world) : outcome :=
  match file_absolute_path (index w) f with
  | None => Failed NoPath w
  | Some p =>
      match Meta.create_from_path normalize_name tinytag_get (str_of_path p)
                                  (meta w) with
      | Meta.Ok meta_data m =>
          let f' := Storage.mkFile (Storage.file_id f)
                                   (Storage.file_filename f)
                                   (Storage.file_directory f)
                                   (Some (now (ticks w)))
                                   (option_map (@Meta.md_id D) meta_data) in
          Done (mkWorld m (save f' (index w)) (S (ticks w)))
      | Meta.Raise _ e m => Failed (MetaError e) (mkWorld m (index w) (ticks w))
      end
  end.

(** [for f in ...: f.update_metadata()], over the rows the query returned. *)
Fixpoint update_each (fs : list Storage.File) (w : world) : outcome :=
  match fs with
  | [] => Done w
  | f :: fs' =>
      match update_metadata f w with
      | Done w' => update_each fs' w'
      | Failed e w' => Failed e w'
      end
  end.

(** [meta_indexed_at__isnull=True]. *)
Definition unindexed (f : Storage.File) : bool :=
  match Storage.file_meta_indexed_at f with
  | None => true
  | Some _ => false
  end.

(** [File.index_unindexed_metadata]. *)
Definition index_unindexed_metadata (w : world) : outcome :=
  update_each (filter unindexed (Storage.files (index w))) w.

(** The fields of a [File] row that say which file it is. *)
Definition identity (f : Storage.File) : nat * string * nat :=
  (Storage.file_id f, Storage.file_filename f, Storage.file_directory f).

End Run.

End Backfill.

(** ** Artwork resolution: [AlbumArtView.get] *)

Module AlbumArtView.

(** The view raises, or answers as its body does. *)
Inductive reply : Type :=
| Raised : Storage.exn -> reply
| Replied : AlbumArt.outcome -> reply.

Section View.

(** The collaborators that live outside [api/views.py]. *)
Variable header : Type.
Variable header_truthy : header -> bool.
Variable tinytag_image : string -> AlbumArt.tag_read.
Variable albumArtFilePath : string -> string.
Variable fetchLocal : string -> header * AlbumArt.bytes * bool.
Variable fetch : string -> option (header * AlbumArt.bytes).
Variable fetch_album_art : bool.
Variable root : fsnode.
Variable parse_path : string -> Path.
(** The depth to which [absolute_path] may climb. *)
Variable depth : nat.
(** [base / path] for the text of a request. *)
Variable path_join : Path -> string -> Path.

(** [AlbumArtView.get].  Line 157 reads the configuration, of which the
    view uses [media.fetch_album_art].  Line 158 is
    [file_path = Directory.get_basedir().absolute_path() / path]; lines 159
    to 200 are [AlbumArt.get_body].  An exception of line 158 leaves the
    view before the cache or any collaborator is touched. *)
Definition get (path : string) (s : Storage.db) (c : AlbumArt.cache) : reply :=
  match Storage.get_basedir s with
  | Storage.Ok basedir _ =>
      match Storage.absolute_path parse_path depth s basedir with
      | Some base =>
          Replied (AlbumArt.get_body header_truthy tinytag_image
                     albumArtFilePath fetchLocal fetch fetch_album_art root
                     (path_join base path) c)
      | None => Raised Storage.RecursionError
      end
  | Storage.Raise e _ => Raised e
  end.

End View.

End AlbumArtView.

(** * Properties *)

(** ** Artwork resolution *)

(** C2.  A request for [/lib/Album/track.mp3], a file without embedded art
    next to [cover.jpg], with nothing cached, does not come back with the
    bytes of [cover.jpg].  As the view is written the request ends on line
    158 with [AttributeError].  The lines after it would not reach the
    folder either: they go on with [/lib/Album/track.mp3/..], which is not
    [/lib/Album] and does not exist, so a local scan that finds [cover.jpg]
    in [/lib/Album] finds nothing, and the answer is [Http404] with nothing
    cached. *)
Theorem artwork_folder_not_reached :
  (forall (path_join : Path -> string -> Path) (depth : nat),
      AlbumArtView.get (fun b : bool => b) Scenario.no_image
        Scenario.thumb_path Scenario.local_in_album Scenario.no_fetch false
        Scenario.lib_fs (fun _ => ["lib"]) depth path_join "Album/track.mp3"
        Scenario.base_db []
      = AlbumArtView.Raised Storage.AttributeError) /\
  Scenario.local_in_album (str_of_path Scenario.album_path)
    = (true, Scenario.cover_bytes, false) /\
  str_of_path (Scenario.track_path ++ [".."]) = "/lib/Album/track.mp3/.." /\
  path_exists Scenario.lib_fs (Scenario.track_path ++ [".."]) = false /\
  AlbumArt.get_body (fun b : bool => b) Scenario.no_image Scenario.thumb_path
    Scenario.local_in_album Scenario.no_fetch false Scenario.lib_fs
    Scenario.track_path []
  = AlbumArt.mkOutcome AlbumArt.RaiseHttp404 []
      [AlbumArt.EvTagRead "/lib/Album/track.mp3";
       AlbumArt.EvFetchLocal "/lib/Album/track.mp3/.."].
Proof.
  split; [intros path_join depth; reflexivity|].
  repeat split.
Qed.

(** C3.  With the cache location of [/lib/Album] filled with bytes [B], a
    request for [/lib/Album/track.mp3] does not return [B].  The request
    ends on line 158 with [AttributeError]; and the lines after it would
    look under the location of [/lib/Album/track.mp3/..], miss, and call the
    local scan. *)
Theorem artwork_cache_of_parent_missed :
  (forall (path_join : Path -> string -> Path) (depth : nat),
      AlbumArtView.get (fun b : bool => b) Scenario.no_image
        Scenario.thumb_path Scenario.local_in_album Scenario.no_fetch false
        Scenario.lib_fs (fun _ => ["lib"]) depth path_join "Album/track.mp3"
        Scenario.base_db
        [(Scenario.thumb_path (str_of_path Scenario.album_path),
          Scenario.cached_bytes)]
      = AlbumArtView.Raised Storage.AttributeError) /\
  AlbumArt.get_body (fun b : bool => b) Scenario.no_image Scenario.thumb_path
    Scenario.local_in_album Scenario.no_fetch false Scenario.lib_fs
    Scenario.track_path
    [(Scenario.thumb_path (str_of_path Scenario.album_path),
      Scenario.cached_bytes)]
  = AlbumArt.mkOutcome AlbumArt.RaiseHttp404
      [(Scenario.thumb_path "/lib/Album", Scenario.cached_bytes)]
      [AlbumArt.EvTagRead "/lib/Album/track.mp3";
       AlbumArt.EvFetchLocal "/lib/Album/track.mp3/.."].
Proof.
  split; [intros path_join depth; reflexivity | reflexivity].
Qed.

(** C9.  On a regular file whose tags cannot be read the view does not go
    on to the cache or the local scan: the tag reader's exception leaves
    the body of [get] as it is. *)
Theorem artwork_tag_error_propagates :
  AlbumArt.get_body (fun b : bool => b) Scenario.unreadable Scenario.thumb_path
               (Scenario.local_hit false) Scenario.no_fetch false
               Scenario.lib_fs Scenario.track_path [] =
    AlbumArt.mkOutcome AlbumArt.RaiseTinyTagException []
                       [AlbumArt.EvTagRead "/lib/Album/track.mp3"].
Proof. reflexivity. Qed.

(** ** Metadata extraction *)

(** C7.  When the tag reader fails, extraction returns [None], raises
    nothing, and leaves every table as it was. *)
Theorem create_from_path_unreadable
    (D : Type) (normalize_name : string -> string)
    (tinytag_get : string -> option (Meta.Tag D)) (path : string)
    (s : Meta.db D) :
  tinytag_get path = None ->
  Meta.create_from_path normalize_name tinytag_get path s = Meta.Ok None s.
Proof.
  intros H. unfold Meta.create_from_path. now rewrite H.
Qed.

Lemma create_from_path_unreadable_witness :
  Meta.create_from_path (fun n => n) Scenario.read_fails "/lib/Album/track.mp3"
                        Scenario.empty_meta_db =
    Meta.Ok None Scenario.empty_meta_db.
Proof.
  apply (@create_from_path_unreadable nat (fun n => n) Scenario.read_fails
           "/lib/Album/track.mp3" Scenario.empty_meta_db).
  reflexivity.
Defined.

(** C6.  A year tag that is not an integer literal is not left unset:
    [int] raises [ValueError] out of the extraction, after the artist and
    the album have been written and before any [MetaData] row is. *)
Theorem create_from_path_unparsable_year :
  exists s',
    Meta.create_from_path (fun n => n) Scenario.read_dated
                          "/lib/Album/track.mp3" Scenario.empty_meta_db =
      Meta.Raise _ Meta.ValueError s' /\
    Meta.metadata s' = [] /\
    Meta.artists s' = [Meta.mkArtist 1 "Radiohead" "Radiohead"].
Proof.
  eexists. split; [vm_compute; reflexivity | split; reflexivity].
Qed.

(** ** Entity deduplication *)

Section ArtistFacts.

Variable D : Type.
Variable normalize_name : string -> string.

Let get_for_name := @Meta.artist_get_for_name D normalize_name.

Lemma artist_get_for_name_null (s : Meta.db D) :
  get_for_name None s = Meta.Ok None s /\
  get_for_name (Some "") s = Meta.Ok None s /\
  (forall name, normalize_name name = "" ->
                get_for_name (Some name) s = Meta.Ok None s).
Proof.
  repeat split. intros name H.
  unfold get_for_name, Meta.artist_get_for_name.
  destruct name; [reflexivity | now rewrite H].
Qed.

Lemma artist_get_for_name_step (name : string) (s : Meta.db D) :
  name <> "" -> normalize_name name <> "" ->
  get_for_name (Some name) s =
    Meta.bind (Meta.artist_get_or_create normalize_name
                 (normalize_name name) name)
              (fun a => Meta.ret (Some a)) s.
Proof.
  intros Hn Hk. unfold get_for_name, Meta.artist_get_for_name.
  destruct name as [|c name]; [congruence|].
  destruct (normalize_name (String c name)); [congruence | reflexivity].
Qed.

End ArtistFacts.

(** C8.  [Artist.get_for_name] returns [None] for a missing or empty name
    and for a name that normalizes to the empty string, without touching
    the table.  For any other name whose key is not in the table yet, the
    first call appends one row that carries the given display name and is
    returned; the second call returns that same row and leaves the table
    as the first call left it. *)
Theorem artist_get_for_name_dedup
    (D : Type) (normalize_name : string -> string) (name : string)
    (s : Meta.db D) :
  let get_for_name := @Meta.artist_get_for_name D normalize_name in
  get_for_name None s = Meta.Ok None s /\
  get_for_name (Some "") s = Meta.Ok None s /\
  (normalize_name name = "" -> get_for_name (Some name) s = Meta.Ok None s) /\
  (name <> "" -> normalize_name name <> "" ->
   filter (fun a => (Meta.artist_norm_name a =? normalize_name name)%string)
          (Meta.artists s) = [] ->
   exists a s1,
     get_for_name (Some name) s = Meta.Ok (Some a) s1 /\
     Meta.artists s1 = Meta.artists s ++ [a] /\
     Meta.artist_name a = name /\
     Meta.artist_id a = Meta.next_artist s /\
     get_for_name (Some name) s1 = Meta.Ok (Some a) s1).
Proof.
  intros get_for_name.
  destruct (artist_get_for_name_null normalize_name s) as (H1 & H2 & H3).
  repeat split; auto.
  intros Hn Hk Hnew.
  set (a := Meta.mkArtist (Meta.next_artist s) name (normalize_name name)).
  exists a. eexists. split.
  - unfold get_for_name. rewrite artist_get_for_name_step by assumption.
    unfold Meta.bind, Meta.artist_get_or_create. rewrite Hnew. reflexivity.
  - repeat split.
    unfold get_for_name. rewrite artist_get_for_name_step by assumption.
    unfold Meta.bind, Meta.artist_get_or_create. simpl Meta.artists.
    rewrite filter_app, Hnew. simpl. rewrite String.eqb_refl. reflexivity.
Qed.

Lemma artist_get_for_name_dedup_witness :
  exists a s1,
    Meta.artist_get_for_name (fun n => n) (Some "Radiohead")
                             Scenario.empty_meta_db = Meta.Ok (Some a) s1 /\
    Meta.artists s1 = [a] /\
    Meta.artist_get_for_name (fun n => n) (Some "Radiohead") s1 =
      Meta.Ok (Some a) s1.
Proof.
  destruct (@artist_get_for_name_dedup nat (fun n => n) "Radiohead"
              Scenario.empty_meta_db) as (_ & _ & _ & H).
  destruct H as (a & s1 & Ha & Hs & _ & _ & Hb);
    [discriminate | discriminate | reflexivity |].
  exists a, s1. repeat split; assumption.
Defined.

(** ** Path resolution *)

Section ResolverFacts.

Import Storage.

Variable root : fsnode.

Let resolve := get_sub_path_directories root.

(** What the lookup of one segment does to the tables. *)
Lemma resolve_cons (self : Directory) (here : Path) (current : string)
    (rest : list string) (s : db) :
  resolve self here (current :: rest) s =
    match dirs_named self current s with
    | [d] =>
        match rest with
        | [] => Ok [d] s
        | _ :: _ =>
            bind (resolve d (joinpath here current) rest)
                 (fun tl => ret (d :: tl)) s
        end
    | _ :: _ :: _ => Raise MultipleObjectsReturned s
    | [] =>
        if path_exists root (joinpath here current) then
          let d := mkDirectory (next_directory s) (Some (dir_id self)) current in
          let s1 := mkDb (directories s ++ [d]) (files s)
                         (S (next_directory s)) (next_file s) in
          match rest with
          | [] => Ok [d] s1
          | _ :: _ =>
              bind (resolve d (joinpath here current) rest)
                   (fun tl => ret (d :: tl)) s1
          end
        else Raise FileNotFoundError s
    end.
Proof.
  unfold resolve. simpl. unfold bind at 1.
  destruct (dirs_named self current s) as [|d [|d' l]].
  - destruct (path_exists root (joinpath here current)); [|reflexivity].
    unfold bind, save_directory, ret. destruct rest; reflexivity.
  - destruct rest; reflexivity.
  - reflexivity.
Qed.






End ResolverFacts.



(** An existing first segment is indexed on the way, a missing second one
    is not. *)
Example resolve_partly_exists :
  Storage.get_sub_path_directories Scenario.lib_fs Scenario.basedir ["lib"]
    ["Album"; "Missing"] Scenario.base_db =
  Storage.Raise Storage.FileNotFoundError
    (Storage.mkDb [Scenario.basedir; Storage.mkDirectory 2 (Some 1) "Album"]
                  [] 3 1).
Proof. reflexivity. Qed.

(** ** Tables *)

Section TableFacts.

Import Storage.

Lemma NoDup_map_eq {A B} (f : A -> B) (l : list A) (x y : A) :
  NoDup (map f l) -> In x l -> In y l -> f x = f y -> x = y.
Proof.
  induction l as [|a l IH]; simpl; [tauto|].
  intros Hnd Hx Hy E. inversion Hnd as [|? ? Hn Hnd']; subst.
  destruct Hx as [->|Hx], Hy as [->|Hy]; auto.
  - exfalso. apply Hn. rewrite E. now apply in_map.
  - exfalso. apply Hn. rewrite <- E. now apply in_map.
Qed.

Lemma filter_andb_l {A} (f g : A -> bool) (l : list A) :
  filter (fun x => f x && g x) l = filter g (filter f l).
Proof.
  induction l as [|a l IH]; simpl; [reflexivity|].
  destruct (f a); simpl; [destruct (g a); now rewrite IH | exact IH].
Qed.

Lemma in_dirs_in (s : db) (p : nat) (d : Directory) :
  In d (dirs_in p s) <-> In d (directories s) /\ dir_parent d = Some p.
Proof.
  unfold dirs_in. rewrite filter_In. split; intros [H1 H2]; split; auto.
  - destruct (dir_parent d) as [q|]; [|discriminate].
    apply Nat.eqb_eq in H2. now subst.
  - rewrite H2. apply Nat.eqb_refl.
Qed.

Lemma dirs_named_view (self : Directory) (name : string) (s : db) :
  dirs_named self name s =
    filter (fun d => (dir_path d =? name)%string) (dirs_in (dir_id self) s).
Proof.
  unfold dirs_named, dirs_in. now rewrite <- filter_andb_l.
Qed.

Lemma grows_refl (s : db) : grows s s.
Proof. split; auto. Qed.

Lemma grows_trans (s t u : db) : grows s t -> grows t u -> grows s u.
Proof.
  intros [A B C D] [A' B' C' D']. split; try lia.
  - intros d Hd. destruct (C' d Hd) as [H|H]; [auto | right; lia].
  - intros f Hf. destruct (D' f Hf) as [H|H]; [auto | right; lia].
Qed.

Lemma filter_none {A} (g : A -> bool) (l : list A) :
  (forall x, In x l -> g x = false) -> filter g l = [].
Proof.
  induction l as [|a l IH]; intros H; simpl; [reflexivity|].
  rewrite (H a (or_introl eq_refl)). apply IH. intros x Hx. apply H. now right.
Qed.

Lemma NoDup_map_filter {A B} (h : A -> B) (f : A -> bool) (l : list A) :
  NoDup (map h l) -> NoDup (map h (filter f l)).
Proof.
  induction l as [|a l IH]; simpl; intros H; [constructor|].
  inversion H as [|? ? Hn Hnd]; subst.
  destruct (f a); simpl; [|auto].
  constructor; [|auto]. intros Hin. apply Hn.
  apply in_map_iff in Hin. destruct Hin as (x & E & Hx).
  apply filter_In in Hx. rewrite <- E. apply in_map. tauto.
Qed.

Lemma NoDup_snoc_fresh (l : list nat) (x : nat) :
  NoDup l -> (forall y, In y l -> y < x) -> NoDup (l ++ [x]).
Proof.
  induction l as [|a l IH]; simpl; intros Hnd Hlt.
  - constructor; [tauto | constructor].
  - inversion Hnd as [|? ? Hn Hnd']; subst. constructor.
    + rewrite in_app_iff. simpl. intros [H|[H|[]]]; [tauto|].
      specialize (Hlt a (or_introl eq_refl)). lia.
    + apply IH; auto.
Qed.

Lemma save_directory_post (self : Directory) (name : string) (t : db) :
  wf t -> dir_id self < next_directory t ->
  let d := mkDirectory (next_directory t) (Some (dir_id self)) name in
  let t1 := mkDb (directories t ++ [d]) (files t)
                 (S (next_directory t)) (next_file t) in
  wf t1 /\ grows t t1 /\
  (forall i, i <> dir_id self -> same_view t t1 i) /\
  files_in (dir_id self) t1 = files_in (dir_id self) t /\
  dirs_in (dir_id self) t1 = dirs_in (dir_id self) t ++ [d].
Proof.
  intros W Hself d t1. destruct W as [W1 W2 W3 W4 W5].
  split; [|split; [|split; [|split]]].
  - split; simpl; auto.
    + rewrite map_app. simpl. apply NoDup_snoc_fresh; [exact W1|].
      intros y Hy. apply in_map_iff in Hy. destruct Hy as (x & <- & Hx). auto.
    + intros x Hx. apply in_app_iff in Hx. destruct Hx as [Hx|[<-|[]]].
      * specialize (W2 x Hx). lia.
      * simpl. lia.
    + intros x q Hx Hq. apply in_app_iff in Hx. destruct Hx as [Hx|[<-|[]]].
      * eauto.
      * simpl in *. inversion Hq. subst q. exact Hself.
  - split; simpl; auto.
    intros x Hx. apply in_app_iff in Hx. destruct Hx as [Hx|[<-|[]]];
      [now left | right; simpl; lia].
  - intros i Hi. split; [reflexivity|].
    unfold dirs_in. simpl. rewrite filter_app. simpl.
    destruct (Nat.eqb_spec (dir_id self) i); [congruence|].
    now rewrite app_nil_r.
  - reflexivity.
  - unfold dirs_in. simpl. rewrite filter_app. simpl.
    now rewrite Nat.eqb_refl.
Qed.

Lemma dirs_named_row (self : Directory) (name : string) (s : db)
    (d : Directory) :
  In d (dirs_named self name s) ->
  In d (directories s) /\ dir_parent d = Some (dir_id self) /\
  dir_path d = name.
Proof.
  rewrite dirs_named_view, filter_In, in_dirs_in, String.eqb_eq. tauto.
Qed.

End TableFacts.

Lemma wf_base_db : Storage.wf Scenario.base_db.
Proof.
  split; simpl.
  - repeat constructor. simpl. tauto.
  - intros d [<-|[]]. simpl. lia.
  - constructor.
  - intros f [].
  - intros d p [<-|[]]. discriminate.
Qed.

(** ** Reconciliation *)

(** C1.  No run of [reindex] returns counters, so there is no first run
    after which a second could return (0, 0, 0, 0).  Whatever the node, the
    disk and the tables, the run ends where it reads [self.file_set], with
    [AttributeError], and the tables are as they were. *)
Theorem reindex_never_returns
    (SUPPORTED_FILETYPES : list string) (lower : string -> string)
    (root : fsnode) (fuel : nat) (recursively : bool)
    (self : Storage.Directory) (here : Path) (s : Storage.db) :
  Storage.reindex SUPPORTED_FILETYPES lower root fuel recursively self here s
    = Storage.Raise Storage.AttributeError s.
Proof. destruct fuel; reflexivity. Qed.

(** C4.  With [/lib/Album] gone from disk, reconciling [/lib] raises
    [AttributeError] where it reads [self.file_set], before the loops that
    delete stale rows.  The row of the removed directory and the row of the
    file in it are still in the tables; so is the row of a removed
    directory that owned nothing. *)
Theorem reindex_stale_rows_stay
    (lower : string -> string) (fuel : nat) (recursively : bool) :
  path_exists Scenario.empty_lib_fs ["lib"; "Album"] = false /\
  Storage.reindex Scenario.audio_types lower Scenario.empty_lib_fs fuel
    recursively Scenario.basedir ["lib"] Scenario.stale_db
    = Storage.Raise Storage.AttributeError Scenario.stale_db /\
  In Scenario.album_dir (Storage.directories Scenario.stale_db) /\
  In Scenario.album_track (Storage.files Scenario.stale_db) /\
  Storage.reindex Scenario.audio_types lower Scenario.empty_lib_fs fuel
    recursively Scenario.basedir ["lib"] Scenario.stale_empty_db
    = Storage.Raise Storage.AttributeError Scenario.stale_empty_db /\
  In Scenario.album_dir (Storage.directories Scenario.stale_empty_db).
Proof.
  split; [reflexivity|].
  split; [destruct fuel; reflexivity|].
  split; [simpl; tauto|]. split; [simpl; tauto|].
  split; [destruct fuel; reflexivity | simpl; tauto].
Qed.

(** C10.  Under the allow-list mp3, ogg, flac, with [cover.jpg] and
    [track.flac] in [/lib], reconciling [/lib] raises [AttributeError] where
    it reads [self.file_set], before it looks at any entry: no [File] row is
    created, for [track.flac] no more than for [cover.jpg]. *)
Theorem reindex_indexes_nothing
    (lower : string -> string) (fuel : nat) (recursively : bool) :
  is_file Scenario.flac_fs ["lib"; "track.flac"] = true /\
  Storage.reindex Scenario.audio_types lower Scenario.flac_fs fuel
    recursively Scenario.basedir ["lib"] Scenario.base_db
    = Storage.Raise Storage.AttributeError Scenario.base_db /\
  Storage.files_named Scenario.basedir "track.flac"
    (Storage.state_of
       (Storage.reindex Scenario.audio_types lower Scenario.flac_fs fuel
          recursively Scenario.basedir ["lib"] Scenario.base_db)) = [].
Proof.
  split; [reflexivity|].
  split; destruct fuel; reflexivity.
Qed.

(** * Further properties *)

(** ** Albums, genres and the rows an extraction writes *)

Section EntityFacts.

Import Meta.

Variable D : Type.
Variable normalize_name : string -> string.
Variable tinytag_get : string -> option (Tag D).

Lemma entities_appended_refl (s : db D) : entities_appended s s.
Proof.
  repeat split; try (exists []; now rewrite app_nil_r).
Qed.

Lemma entities_appended_trans (s t u : db D) :
  entities_appended s t -> entities_appended t u -> entities_appended s u.
Proof.
  intros ([a Ha] & [b Hb] & [g Hg] & Hm & Hn)
         ([a' Ha'] & [b' Hb'] & [g' Hg'] & Hm' & Hn').
  repeat split.
  - exists (a ++ a'). now rewrite Ha', Ha, app_assoc.
  - exists (b ++ b'). now rewrite Hb', Hb, app_assoc.
  - exists (g ++ g'). now rewrite Hg', Hg, app_assoc.
  - congruence.
  - congruence.
Qed.

Lemma bind_appended {A B} (m : M D A) (k : A -> M D B) (s : db D) :
  entities_appended s (state_of (m s)) ->
  (forall a s1, m s = Ok a s1 -> entities_appended s1 (state_of (k a s1))) ->
  entities_appended s (state_of (bind m k s)).
Proof.
  intros H1 H2. unfold bind. destruct (m s) as [a s1|e s1] eqn:E.
  - eapply entities_appended_trans; [exact H1|]. now apply H2.
  - exact H1.
Qed.

Lemma artist_get_for_name_appended (name : option string) (s : db D) :
  entities_appended s (state_of (artist_get_for_name normalize_name name s)).
Proof.
  unfold artist_get_for_name.
  destruct name as [[|c n]|]; try apply entities_appended_refl.
  destruct (normalize_name (String c n)); [apply entities_appended_refl|].
  apply bind_appended; [|intros; apply entities_appended_refl].
  unfold artist_get_or_create.
  match goal with |- context [filter ?f ?l] => destruct (filter f l) as [|x [|y l']] end;
    simpl; try apply entities_appended_refl.
  repeat split; try (exists []; now rewrite app_nil_r).
  eexists; reflexivity.
Qed.

Lemma album_get_for_name_appended (album : string) (aa : option Artist)
    (s : db D) :
  entities_appended s (state_of (album_get_for_name album aa s)).
Proof.
  unfold album_get_for_name.
  match goal with |- context [filter ?f ?l] => destruct (filter f l) as [|x [|y l']] end;
    simpl; try apply entities_appended_refl.
  repeat split; try (exists []; now rewrite app_nil_r).
  eexists; reflexivity.
Qed.

Lemma genre_get_for_name_appended (genre : string) (s : db D) :
  entities_appended s (state_of (genre_get_for_name normalize_name genre s)).
Proof.
  unfold genre_get_for_name.
  match goal with |- context [filter ?f ?l] => destruct (filter f l) as [|x [|y l']] end;
    simpl; try apply entities_appended_refl.
  repeat split; try (exists []; now rewrite app_nil_r).
  eexists; reflexivity.
Qed.

Lemma int_or_none_state (x : option string) (s : db D) :
  state_of (int_or_none x s) = s.
Proof.
  unfold int_or_none. destruct x as [[|c n]|]; try reflexivity.
  simpl. destruct (py_int (String c n)); reflexivity.
Qed.

Lemma int_or_none_ok (x : option string) (s s' : db D) (z : option Z) :
  int_or_none x s = Ok z s' -> s' = s.
Proof.
  intros H. pose proof (int_or_none_state x s) as E. rewrite H in E. exact E.
Qed.

Lemma int_or_none_raise (x : option string) (s s' : db D) (e : exn) :
  int_or_none x s = Raise _ e s' -> s' = s.
Proof.
  intros H. pose proof (int_or_none_state x s) as E. rewrite H in E. exact E.
Qed.

Lemma create_from_path_effect (path : string) (s : db D) :
  match create_from_path normalize_name tinytag_get path s with
  | Ok (Some m) s' =>
      (exists l, artists s' = artists s ++ l) /\
      (exists l, albums s' = albums s ++ l) /\
      (exists l, genres s' = genres s ++ l) /\
      metadata s' = metadata s ++ [m] /\ md_id m = next_metadata s
  | Ok None s' => s' = s
  | Raise _ _ s' => entities_appended s s'
  end.
Proof.
  unfold create_from_path.
  destruct (tinytag_get path) as [tag|]; [|reflexivity].
  unfold bind at 1.
  pose proof (artist_get_for_name_appended (tag_artist tag) s) as H1.
  destruct (artist_get_for_name normalize_name (tag_artist tag) s)
    as [artist s1|e s1]; simpl in H1; [|exact H1].
  unfold bind at 1.
  pose proof (artist_get_for_name_appended (tag_albumartist tag) s1) as H2.
  destruct (artist_get_for_name normalize_name (tag_albumartist tag) s1)
    as [albumartist s2|e s2]; simpl in H2;
    [|eapply entities_appended_trans; eauto].
  assert (H12 : entities_appended s s2)
    by (eapply entities_appended_trans; eauto).
  clear H1 H2.
  unfold bind at 1.
  match goal with |- match match ?m s2 with _ => _ end with _ => _ end =>
    assert (H3 : entities_appended s2 (state_of (m s2)));
    [|destruct (m s2) as [album s3|e s3]; simpl in H3;
      [|eapply entities_appended_trans; eauto]]
  end.
  { destruct (truthy (tag_album tag)); [|apply entities_appended_refl].
    destruct (tag_album tag); [|apply entities_appended_refl].
    apply bind_appended; [apply album_get_for_name_appended|].
    intros; apply entities_appended_refl. }
  assert (H13 : entities_appended s s3)
    by (eapply entities_appended_trans; eauto).
  clear H12 H3.
  unfold bind at 1.
  match goal with |- match match ?m s3 with _ => _ end with _ => _ end =>
    assert (H4 : entities_appended s3 (state_of (m s3)));
    [|destruct (m s3) as [genre s4|e s4]; simpl in H4;
      [|eapply entities_appended_trans; eauto]]
  end.
  { destruct (truthy (tag_genre tag)); [|apply entities_appended_refl].
    destruct (tag_genre tag); [|apply entities_appended_refl].
    apply bind_appended; [apply genre_get_for_name_appended|].
    intros; apply entities_appended_refl. }
  assert (H14 : entities_appended s s4)
    by (eapply entities_appended_trans; eauto).
  clear H13 H4.
  unfold bind at 1.
  destruct (int_or_none (tag_track tag) s4) as [track s5|e s5] eqn:E5;
    [apply int_or_none_ok in E5 | apply int_or_none_raise in E5];
    subst s5; [|exact H14].
  unfold bind at 1.
  destruct (int_or_none (tag_track_total tag) s4) as [total s5|e s5] eqn:E5;
    [apply int_or_none_ok in E5 | apply int_or_none_raise in E5];
    subst s5; [|exact H14].
  unfold bind at 1.
  destruct (int_or_none (tag_year tag) s4) as [year s5|e s5] eqn:E5;
    [apply int_or_none_ok in E5 | apply int_or_none_raise in E5];
    subst s5; [|exact H14].
  unfold bind, metadata_create, ret. simpl.
  destruct H14 as (Ha & Hb & Hg & Hm & Hn).
  repeat split; auto; now rewrite Hm.
Qed.

End EntityFacts.

(** X5.  What an extraction writes: when it returns a [MetaData] row, that
    row was appended to its table under the next key, and the other tables
    only had rows appended; when it returns [None] nothing was written at
    all; when it raises, no [MetaData] row was written and the other tables
    only had rows appended. *)
Theorem create_from_path_writes
    (D : Type) (normalize_name : string -> string)
    (tinytag_get : string -> option (Meta.Tag D)) (path : string)
    (s : Meta.db D) :
  match Meta.create_from_path normalize_name tinytag_get path s with
  | Meta.Ok (Some m) s' =>
      (exists l, Meta.artists s' = Meta.artists s ++ l) /\
      (exists l, Meta.albums s' = Meta.albums s ++ l) /\
      (exists l, Meta.genres s' = Meta.genres s ++ l) /\
      Meta.metadata s' = Meta.metadata s ++ [m] /\
      Meta.md_id m = Meta.next_metadata s
  | Meta.Ok None s' => s' = s
  | Meta.Raise _ _ s' => Meta.entities_appended s s'
  end.
Proof.
  apply create_from_path_effect.
Qed.

(** X6.  [Album.get_for_name] deduplicates by the literal pair of name and
    album artist: for a pair not in the table the first call appends one
    row carrying that pair, and a second call with the same pair returns
    that row and writes nothing. *)
Theorem album_get_for_name_dedup
    (D : Type) (album : string) (albumartist : option Meta.Artist)
    (s : Meta.db D) :
  filter (fun a => (Meta.album_name a =? album)%string
                   && Meta.option_nat_eqb (Meta.album_albumartist a)
                        (option_map Meta.artist_id albumartist))
         (Meta.albums s) = [] ->
  exists a s1,
    Meta.album_get_for_name album albumartist s = Meta.Ok a s1 /\
    Meta.albums s1 = Meta.albums s ++ [a] /\
    Meta.album_name a = album /\
    Meta.album_albumartist a = option_map Meta.artist_id albumartist /\
    Meta.album_get_for_name album albumartist s1 = Meta.Ok a s1.
Proof.
  intros Hnew.
  set (a := Meta.mkAlbum (Meta.next_album s) album
                         (option_map Meta.artist_id albumartist)).
  exists a. eexists. split.
  - unfold Meta.album_get_for_name. rewrite Hnew. reflexivity.
  - repeat split. unfold Meta.album_get_for_name. simpl Meta.albums.
    rewrite filter_app, Hnew. simpl. rewrite String.eqb_refl.
    assert (E : Meta.option_nat_eqb (option_map Meta.artist_id albumartist)
                  (option_map Meta.artist_id albumartist) = true).
    { destruct albumartist; simpl; [apply Nat.eqb_refl | reflexivity]. }
    rewrite E. reflexivity.
Qed.

Lemma album_get_for_name_dedup_witness :
  exists a s1,
    Meta.album_get_for_name "Kid A" None Scenario.empty_meta_db
      = Meta.Ok a s1 /\
    Meta.albums s1 = [a] /\
    Meta.album_get_for_name "Kid A" None s1 = Meta.Ok a s1.
Proof.
  destruct (@album_get_for_name_dedup nat "Kid A" None Scenario.empty_meta_db
              eq_refl) as (a & s1 & H1 & H2 & _ & _ & H3).
  exists a, s1. repeat split; assumption.
Defined.

(** X7.  [Genre.get_for_name] looks a genre up under [normalize_name(genre)]
    but stores what [Genre.save] makes of that, [normalize_name] applied
    once more.  When normalizing twice gives what normalizing once gives,
    the first call for a new genre appends one row and every later call
    with a name of the same normalized form returns that row and writes
    nothing. *)
Theorem genre_get_for_name_dedup
    (D : Type) (normalize_name : string -> string) (genre genre' : string)
    (s : Meta.db D) :
  normalize_name (normalize_name genre) = normalize_name genre ->
  normalize_name genre' = normalize_name genre ->
  filter (fun g => (Meta.genre_name g =? normalize_name genre)%string)
         (Meta.genres s) = [] ->
  exists g s1,
    Meta.genre_get_for_name normalize_name genre s = Meta.Ok g s1 /\
    Meta.genres s1 = Meta.genres s ++ [g] /\
    Meta.genre_name g = normalize_name genre /\
    Meta.genre_get_for_name normalize_name genre' s1 = Meta.Ok g s1.
Proof.
  intros Hidem Hsame Hnew.
  set (g := Meta.mkGenre (Meta.next_genre s) (normalize_name genre)).
  exists g. eexists. split.
  - unfold Meta.genre_get_for_name. rewrite Hnew, Hidem. reflexivity.
  - repeat split.
    unfold Meta.genre_get_for_name. simpl Meta.genres.
    rewrite Hsame, filter_app, Hnew. simpl.
    rewrite String.eqb_refl. reflexivity.
Qed.

Lemma genre_get_for_name_dedup_witness :
  exists g s1,
    Meta.genre_get_for_name Scenario.fold_case "Rock" Scenario.empty_meta_db
      = Meta.Ok g s1 /\
    Meta.genres s1 = [g] /\
    Meta.genre_name g = "rock" /\
    Meta.genre_get_for_name Scenario.fold_case "ROCK" s1 = Meta.Ok g s1.
Proof.
  destruct (@genre_get_for_name_dedup nat Scenario.fold_case "Rock" "ROCK"
              Scenario.empty_meta_db eq_refl eq_refl eq_refl)
    as (g & s1 & H1 & H2 & H3 & H4).
  exists g, s1. repeat split; assumption.
Defined.

(** Without that, the second call misses the row the first one stored. *)
Example genre_get_for_name_duplicates :
  let normalize := fun n => String.append n "!" in
  exists g g' s1 s2,
    Meta.genre_get_for_name normalize "Rock" Scenario.empty_meta_db
      = Meta.Ok g s1 /\
    Meta.genre_get_for_name normalize "Rock" s1 = Meta.Ok g' s2 /\
    Meta.genres s2 = [g; g'] /\ Meta.genre_id g <> Meta.genre_id g'.
Proof.
  do 4 eexists. repeat split; try reflexivity. simpl. discriminate.
Qed.

(** ** The references of an extracted row *)

Section ReferenceFacts.

Import Meta.

Variable D : Type.
Variable normalize_name : string -> string.
Variable tinytag_get : string -> option (Tag D).

(** The album step and the genre step of [create_from_path]. *)
Local Abbreviation album_step tag artist albumartist :=
  (if truthy (tag_album tag) then
     match tag_album tag with
     | Some n =>
         bind (album_get_for_name (D:=D) n (or_else albumartist artist))
              (fun a => ret (Some a))
     | None => ret None
     end
   else ret None).

Local Abbreviation genre_step tag :=
  (if truthy (tag_genre tag) then
     match tag_genre tag with
     | Some n => bind (genre_get_for_name (D:=D) normalize_name n)
                      (fun g => ret (Some g))
     | None => ret None
     end
   else ret None).

(** A returned row comes from a run in which every step returned. *)
Lemma create_from_path_some (path : string) (s s' : db D) (m : MetaData D) :
  create_from_path normalize_name tinytag_get path s = Ok (Some m) s' ->
  exists tag artist albumartist album genre s1 s2 s3 s4 track total year,
    tinytag_get path = Some tag /\
    artist_get_for_name normalize_name (tag_artist tag) s = Ok artist s1 /\
    artist_get_for_name normalize_name (tag_albumartist tag) s1
      = Ok albumartist s2 /\
    album_step tag artist albumartist s2 = Ok album s3 /\
    genre_step tag s3 = Ok genre s4 /\
    int_or_none (tag_track tag) s4 = Ok track s4 /\
    int_or_none (tag_track_total tag) s4 = Ok total s4 /\
    int_or_none (tag_year tag) s4 = Ok year s4 /\
    m = mkMetaData (next_metadata s4) track total (tag_title tag)
          (option_map artist_id artist) (option_map album_id album) year
          (option_map genre_id genre) (tag_duration tag) /\
    s' = mkDb (artists s4) (albums s4) (genres s4) (metadata s4 ++ [m])
              (next_artist s4) (next_album s4) (next_genre s4)
              (S (next_metadata s4)).
Proof.
  unfold create_from_path. intros H.
  destruct (tinytag_get path) as [tag|]; [|discriminate].
  unfold bind at 1 in H.
  destruct (artist_get_for_name normalize_name (tag_artist tag) s)
    as [artist s1|] eqn:E1; [|discriminate].
  unfold bind at 1 in H.
  destruct (artist_get_for_name normalize_name (tag_albumartist tag) s1)
    as [albumartist s2|] eqn:E2; [|discriminate].
  unfold bind at 1 in H.
  destruct (album_step tag artist albumartist s2) as [album s3|] eqn:E3;
    [|discriminate].
  unfold bind at 1 in H.
  destruct (genre_step tag s3) as [genre s4|] eqn:E4; [|discriminate].
  unfold bind at 1 in H.
  destruct (int_or_none (tag_track tag) s4) as [track s5|] eqn:E5;
    [|discriminate].
  pose proof E5 as K. apply int_or_none_ok in K. subst s5.
  unfold bind at 1 in H.
  destruct (int_or_none (tag_track_total tag) s4) as [total s5|] eqn:E6;
    [|discriminate].
  pose proof E6 as K. apply int_or_none_ok in K. subst s5.
  unfold bind at 1 in H.
  destruct (int_or_none (tag_year tag) s4) as [year s5|] eqn:E7;
    [|discriminate].
  pose proof E7 as K. apply int_or_none_ok in K. subst s5.
  unfold bind, metadata_create, ret in H. injection H as Hm Hs.
  exists tag, artist, albumartist, album, genre, s1, s2, s3, s4, track,
    total, year.
  subst m s'. repeat split; auto.
Qed.

Lemma option_nat_eqb_eq (a b : option nat) :
  option_nat_eqb a b = true -> a = b.
Proof.
  destruct a, b; simpl; try discriminate; auto.
  intros H. apply Nat.eqb_eq in H. now subst.
Qed.

Lemma artist_get_for_name_row (name : option string) (a : Artist)
    (s s1 : db D) :
  artist_get_for_name normalize_name name s = Ok (Some a) s1 ->
  In a (artists s1).
Proof.
  unfold artist_get_for_name.
  destruct name as [[|c n]|]; try discriminate.
  destruct (normalize_name (String c n)) eqn:En; [discriminate|].
  unfold bind, artist_get_or_create, ret.
  match goal with |- context [filter ?f ?l] =>
    destruct (filter f l) as [|x [|y l']] eqn:Hq end; try discriminate.
  - intros H. injection H as <- <-. simpl. apply in_app_iff. right. now left.
  - intros H. injection H as <- <-.
    assert (Hin : In x [x]) by now left.
    rewrite <- Hq in Hin. now apply filter_In in Hin.
Qed.

Lemma artist_get_for_name_falsy (name : option string) (r : option Artist)
    (s s1 : db D) :
  truthy name = false ->
  artist_get_for_name normalize_name name s = Ok r s1 -> r = None.
Proof.
  unfold artist_get_for_name.
  destruct name as [[|c n]|]; simpl; try discriminate;
    intros _ H; now injection H as <- _.
Qed.

Lemma album_get_for_name_row (album : string) (aa : option Artist)
    (a : Album) (s s1 : db D) :
  album_get_for_name album aa s = Ok a s1 ->
  In a (albums s1) /\ album_name a = album /\
  album_albumartist a = option_map artist_id aa.
Proof.
  unfold album_get_for_name.
  match goal with |- context [filter ?f ?l] =>
    destruct (filter f l) as [|x [|y l']] eqn:Hq end; try discriminate.
  - intros H. injection H as <- <-. simpl. repeat split.
    apply in_app_iff. right. now left.
  - intros H. injection H as <- <-.
    assert (Hin : In x [x]) by now left.
    rewrite <- Hq in Hin. apply filter_In in Hin. destruct Hin as [Hin Hp].
    apply andb_true_iff in Hp. destruct Hp as [Hn Ha].
    apply String.eqb_eq in Hn. apply option_nat_eqb_eq in Ha. now repeat split.
Qed.

Lemma genre_get_for_name_row (genre : string) (g : Genre) (s s1 : db D) :
  genre_get_for_name normalize_name genre s = Ok g s1 -> In g (genres s1).
Proof.
  unfold genre_get_for_name.
  match goal with |- context [filter ?f ?l] =>
    destruct (filter f l) as [|x [|y l']] eqn:Hq end; try discriminate.
  - intros H. injection H as <- <-. simpl. apply in_app_iff. right. now left.
  - intros H. injection H as <- <-.
    assert (Hin : In x [x]) by now left.
    rewrite <- Hq in Hin. now apply filter_In in Hin.
Qed.

Lemma album_step_row (tag : Tag D) (artist albumartist : option Artist)
    (al : Album) (s2 s3 : db D) :
  album_step tag artist albumartist s2 = Ok (Some al) s3 ->
  In al (albums s3) /\
  tag_album tag = Some (album_name al) /\
  album_albumartist al = option_map artist_id (or_else albumartist artist).
Proof.
  destruct (truthy (tag_album tag)); [|discriminate].
  destruct (tag_album tag) as [n|]; [|discriminate].
  unfold bind, ret.
  destruct (album_get_for_name n (or_else albumartist artist) s2)
    as [a s|] eqn:E; [|discriminate].
  intros H. injection H as <- <-.
  destruct (album_get_for_name_row _ _ _ E) as (H1 & H2 & H3).
  rewrite H2. now repeat split.
Qed.

Lemma genre_step_row (tag : Tag D) (g : Genre) (s3 s4 : db D) :
  genre_step tag s3 = Ok (Some g) s4 -> In g (genres s4).
Proof.
  destruct (truthy (tag_genre tag)); [|discriminate].
  destruct (tag_genre tag) as [n|]; [|discriminate].
  unfold bind, ret.
  destruct (genre_get_for_name normalize_name n s3) as [a s|] eqn:E;
    [|discriminate].
  intros H. injection H as <- <-. eapply genre_get_for_name_row; eauto.
Qed.

Lemma album_step_appended (tag : Tag D) (artist albumartist : option Artist)
    (s2 : db D) :
  entities_appended s2 (state_of (album_step tag artist albumartist s2)).
Proof.
  destruct (truthy (tag_album tag)); [|apply entities_appended_refl].
  destruct (tag_album tag); [|apply entities_appended_refl].
  apply bind_appended; [apply album_get_for_name_appended|].
  intros; apply entities_appended_refl.
Qed.

Lemma genre_step_appended (tag : Tag D) (s3 : db D) :
  entities_appended s3 (state_of (genre_step tag s3)).
Proof.
  destruct (truthy (tag_genre tag)); [|apply entities_appended_refl].
  destruct (tag_genre tag); [|apply entities_appended_refl].
  apply bind_appended; [apply genre_get_for_name_appended|].
  intros; apply entities_appended_refl.
Qed.

Lemma appended_of_ok {A} (r : result D A) (a : A) (s s1 : db D) :
  entities_appended s (state_of r) -> r = Ok a s1 -> entities_appended s s1.
Proof.
  intros H E. now rewrite E in H.
Qed.

Lemma create_from_path_refs (path : string) (tag : Tag D) (m : MetaData D)
    (s s' : db D) :
  tinytag_get path = Some tag ->
  create_from_path normalize_name tinytag_get path s = Ok (Some m) s' ->
  (forall i, md_artist m = Some i ->
             exists a, In a (artists s') /\ artist_id a = i) /\
  (forall i, md_genre m = Some i ->
             exists g, In g (genres s') /\ genre_id g = i) /\
  (forall i, md_album m = Some i ->
             exists al,
               In al (albums s') /\ album_id al = i /\
               tag_album tag = Some (album_name al) /\
               (album_albumartist al = None \/
                exists a, In a (artists s') /\
                          album_albumartist al = Some (artist_id a)) /\
               (truthy (tag_albumartist tag) = false ->
                album_albumartist al = md_artist m)) /\
  md_title m = tag_title tag /\ md_duration m = tag_duration tag.
Proof.
  intros Htag H.
  pose proof H as H0. apply create_from_path_some in H0.
  destruct H0
    as (tag' & artist & albumartist & album & genre & s1 & s2 & s3 & s4
        & track & total & year
        & Ht & E1 & E2 & E3 & E4 & _ & _ & _ & Hm & Hs).
  rewrite Htag in Ht. injection Ht as <-.
  assert (A12 : entities_appended s1 s2).
  { eapply appended_of_ok; [|exact E2]. apply artist_get_for_name_appended. }
  assert (A23 : entities_appended s2 s3).
  { eapply appended_of_ok; [|exact E3]. apply album_step_appended. }
  assert (A34 : entities_appended s3 s4).
  { eapply appended_of_ok; [|exact E4]. apply genre_step_appended. }
  assert (Hart : forall (t u : db D) a,
             entities_appended t u -> In a (artists t) -> In a (artists u)).
  { intros t u a ([l Hl] & _) Hin. rewrite Hl. apply in_app_iff. now left. }
  assert (Halb : forall (t u : db D) a,
             entities_appended t u -> In a (albums t) -> In a (albums u)).
  { intros t u a (_ & [l Hl] & _) Hin. rewrite Hl. apply in_app_iff. now left. }
  assert (Ha1 : forall a, artist = Some a -> In a (artists s')).
  { intros a ->. subst s'. simpl.
    apply (Hart s3 s4 a A34), (Hart s2 s3 a A23), (Hart s1 s2 a A12).
    eapply artist_get_for_name_row; eauto. }
  assert (Ha2 : forall a, albumartist = Some a -> In a (artists s')).
  { intros a ->. subst s'. simpl.
    apply (Hart s3 s4 a A34), (Hart s2 s3 a A23).
    eapply artist_get_for_name_row; eauto. }
  subst m. simpl. repeat split.
  - intros i Hi. destruct artist as [a|]; [|discriminate].
    injection Hi as <-. exists a. split; [now apply Ha1 | reflexivity].
  - intros i Hi. destruct genre as [g|]; [|discriminate].
    injection Hi as <-. exists g. split; [|reflexivity].
    subst s'. simpl. eapply genre_step_row; eauto.
  - intros i Hi. destruct album as [al|]; [|discriminate].
    injection Hi as <-. exists al.
    pose proof E3 as E3'. apply album_step_row in E3'.
    destruct E3' as (Hin & Hn & Haa).
    split; [subst s'; simpl; now apply (Halb s3 s4 al A34)|].
    split; [reflexivity|]. split; [exact Hn|]. split.
    + rewrite Haa. destruct albumartist as [a|]; simpl.
      * right. exists a. split; [now apply Ha2 | reflexivity].
      * destruct artist as [a|]; simpl; [|now left].
        right. exists a. split; [now apply Ha1 | reflexivity].
    + intros Hf. rewrite Haa.
      assert (albumartist = None)
        by (eapply artist_get_for_name_falsy; eauto).
      now subst albumartist.
Qed.

End ReferenceFacts.

(** X8.  The row an extraction returns points at rows that are in the
    tables: its artist, its genre and its album, the album being the one
    named by the tag, with an artist that is itself in the table; and when
    the tag names no album artist, the album's artist is the track's. *)
Theorem create_from_path_references
    (D : Type) (normalize_name : string -> string)
    (tinytag_get : string -> option (Meta.Tag D)) (path : string)
    (tag : Meta.Tag D) (m : Meta.MetaData D) (s s' : Meta.db D) :
  tinytag_get path = Some tag ->
  Meta.create_from_path normalize_name tinytag_get path s
    = Meta.Ok (Some m) s' ->
  (forall i, Meta.md_artist m = Some i ->
             exists a, In a (Meta.artists s') /\ Meta.artist_id a = i) /\
  (forall i, Meta.md_genre m = Some i ->
             exists g, In g (Meta.genres s') /\ Meta.genre_id g = i) /\
  (forall i, Meta.md_album m = Some i ->
             exists al,
               In al (Meta.albums s') /\ Meta.album_id al = i /\
               Meta.tag_album tag = Some (Meta.album_name al) /\
               (Meta.album_albumartist al = None \/
                exists a, In a (Meta.artists s') /\
                          Meta.album_albumartist al
                            = Some (Meta.artist_id a)) /\
               (Meta.truthy (Meta.tag_albumartist tag) = false ->
                Meta.album_albumartist al = Meta.md_artist m)) /\
  Meta.md_title m = Meta.tag_title tag /\
  Meta.md_duration m = Meta.tag_duration tag.
Proof.
  apply create_from_path_refs.
Qed.

Lemma create_from_path_references_witness :
  Meta.create_from_path (fun n => n) Scenario.read_plain
                        "/lib/Album/track.mp3" Scenario.empty_meta_db
    = Meta.Ok (Some Scenario.plain_row) Scenario.plain_db /\
  Meta.md_title Scenario.plain_row = Some "Idioteque".
Proof.
  split; [reflexivity|].
  apply (@create_from_path_references nat (fun n => n) Scenario.read_plain
           "/lib/Album/track.mp3" Scenario.plain_tag Scenario.plain_row
           Scenario.empty_meta_db Scenario.plain_db eq_refl eq_refl).
Defined.

(** ** Streaming *)

Lemma file_iterator_from_concat (fuel : nat) :
  forall (rest : Stream.bytes) (n : nat),
    0 < n -> List.length rest < fuel ->
    List.concat (Stream.file_iterator_from fuel rest n) = rest.
Proof.
  induction fuel as [|k IH]; intros rest n Hn Hlen; [lia|].
  simpl. destruct (firstn n rest) as [|b data] eqn:E.
  - destruct rest; [reflexivity|]. destruct n; [lia | simpl in E; discriminate].
  - simpl. rewrite IH; [| exact Hn |].
    + rewrite app_comm_cons, <- E. apply firstn_skipn.
    + rewrite length_skipn.
      destruct rest; [rewrite firstn_nil in E; discriminate|].
      cbn [List.length] in *. lia.
Qed.

Lemma file_iterator_from_sizes (fuel : nat) :
  forall (rest : Stream.bytes) (n : nat),
    Forall (fun c => 0 < List.length c <= n)
           (Stream.file_iterator_from fuel rest n).
Proof.
  induction fuel as [|k IH]; intros rest n; simpl; [constructor|].
  destruct (firstn n rest) as [|b data] eqn:E; [constructor|].
  constructor; [|apply IH].
  rewrite <- E. split; [rewrite E; simpl; lia | apply firstn_le_length].
Qed.

Lemma file_iterator_from_full (fuel : nat) :
  forall (rest : Stream.bytes) (n : nat) pre c post,
    Stream.file_iterator_from fuel rest n = pre ++ c :: post ->
    post <> [] -> List.length c = n.
Proof.
  induction fuel as [|k IH]; intros rest n pre c post H Hpost; simpl in H.
  - destruct pre; discriminate.
  - destruct (firstn n rest) as [|b data] eqn:E; [destruct pre; discriminate|].
    destruct pre as [|p pre]; simpl in H.
    + injection H as Hc Hrest. subst c.
      destruct k; simpl in Hrest; [now subst post|].
      destruct (firstn n (skipn n rest)) as [|b' data'] eqn:E';
        [now subst post|].
      rewrite <- E. apply firstn_length_le.
      destruct (Nat.le_gt_cases n (List.length rest)) as [Hle|Hgt]; [exact Hle|].
      rewrite skipn_all2 in E' by lia. now destruct n.
    + injection H as _ Hrest. eapply IH; eauto.
Qed.

(** X13.  Streamed with a positive chunk size, a file arrives whole and in
    order: the chunks put together are the content, no chunk is empty or
    longer than the chunk size, and every chunk but the last has exactly
    the chunk size.  With chunk size 0 nothing is streamed. *)
Theorem stream_chunks (content : Stream.bytes) (chunk_size : nat) :
  (chunk_size = 0 -> Stream.file_iterator content chunk_size = []) /\
  (0 < chunk_size ->
   List.concat (Stream.file_iterator content chunk_size) = content /\
   Forall (fun c => 0 < List.length c <= chunk_size)
          (Stream.file_iterator content chunk_size) /\
   forall pre c post,
     Stream.file_iterator content chunk_size = pre ++ c :: post ->
     post <> [] -> List.length c = chunk_size).
Proof.
  unfold Stream.file_iterator. split.
  - intros ->. reflexivity.
  - intros Hn. split; [apply file_iterator_from_concat; lia|].
    split; [apply file_iterator_from_sizes|].
    apply file_iterator_from_full.
Qed.

Lemma stream_chunks_witness :
  List.concat (Stream.file_iterator [Byte.x01; Byte.x02; Byte.x03; Byte.x04;
                                Byte.x05] 2)
    = [Byte.x01; Byte.x02; Byte.x03; Byte.x04; Byte.x05].
Proof.
  apply (proj2 (stream_chunks [Byte.x01; Byte.x02; Byte.x03; Byte.x04;
                               Byte.x05] 2)).
  lia.
Defined.

(** ** Path resolution: the chain it returns *)

Section ResolveChain.

Import Storage.

Variable root : fsnode.

Local Abbreviation resolve := (get_sub_path_directories root).

Local Abbreviation chain_post self s ds s' :=
  (wf s' /\ grows s s' /\ files s' = files s /\
   linked (dir_id self) ds /\
   Forall (fun d => In d (directories s')) ds /\
   exists added,
     directories s' = directories s ++ added /\
     Forall (fun x => exists p, dir_parent x = Some p /\ dir_id self <= p)
            added).

Lemma resolve_chain_post (segs : list string) :
  forall self here s ds s',
    wf s -> dir_id self < next_directory s ->
    resolve self here segs s = Ok ds s' ->
    chain_post self s ds s'.
Proof.
  induction segs as [|current rest IH]; intros self here s ds s' W Hself H;
    [discriminate|].
  rewrite resolve_cons in H.
  assert (Hstep : forall d s1,
             wf s1 -> grows s s1 -> files s1 = files s ->
             In d (directories s1) -> dir_parent d = Some (dir_id self) ->
             (exists added,
                 directories s1 = directories s ++ added /\
                 Forall (fun x => exists p, dir_parent x = Some p /\
                                            dir_id self <= p) added) ->
             match rest with
             | [] => Ok [d] s1
             | _ :: _ => bind (resolve d (joinpath here current) rest)
                              (fun tl => ret (d :: tl)) s1
             end = Ok ds s' ->
             chain_post self s ds s').
  { intros d s1 W1 G1 F1 Hd Hp (added & Ea & Fa) Hr.
    assert (Hlt : dir_id self < dir_id d) by (eapply wf_parent_lt; eauto).
    destruct rest as [|r rest'].
    - injection Hr as <- <-.
      split; [exact W1|]. split; [exact G1|]. split; [exact F1|].
      split; [simpl; now split|]. split; [now constructor|].
      exists added. now split.
    - unfold bind, ret in Hr.
      destruct (resolve d (joinpath here current) (r :: rest') s1)
        as [tl s2|] eqn:Hrec; [|discriminate].
      injection Hr as <- <-.
      destruct (IH d (joinpath here current) s1 tl s2 W1
                   (wf_dir_fresh W1 _ Hd) Hrec)
        as (W2 & G2 & F2 & L2 & In2 & added2 & Ea2 & Fa2).
      split; [exact W2|]. split; [eapply grows_trans; eauto|].
      split; [congruence|]. split; [simpl; now split|]. split.
      + constructor; [|exact In2]. rewrite Ea2. apply in_app_iff. now left.
      + exists (added ++ added2). split; [now rewrite Ea2, Ea, app_assoc|].
        apply Forall_app. split; [exact Fa|].
        eapply Forall_impl; [|exact Fa2]. intros x (p & Hx & Hle).
        exists p. split; [exact Hx | lia]. }
  destruct (dirs_named self current s) as [|d [|d' l]] eqn:Hq.
  - destruct (path_exists root (joinpath here current)); [|discriminate].
    cbv zeta in H.
    destruct (save_directory_post self current W Hself)
      as (W1 & G1 & _ & _ & _).
    refine (Hstep _ _ W1 G1 _ _ _ _ H); [reflexivity | | reflexivity |].
    + simpl. apply in_app_iff. right. now left.
    + eexists. split; [reflexivity|]. constructor; [|constructor].
      eexists. split; [reflexivity | simpl; lia].
  - assert (Hrow : In d (dirs_named self current s)) by (rewrite Hq; now left).
    apply dirs_named_row in Hrow. destruct Hrow as (Hd & Hp & _).
    refine (Hstep _ _ W (grows_refl _) _ Hd Hp _ H); [reflexivity|].
    exists []. rewrite app_nil_r. now split.
  - discriminate.
Qed.

End ResolveChain.

Section ResolveAgain.

Import Storage.

(** Rows whose parent key is above [i] are not children of the directory
    with key [i]. *)
Lemma dirs_named_above (self : Directory) (name : string) (i : nat)
    (added : list Directory) :
  dir_id self < i ->
  Forall (fun x => exists p, dir_parent x = Some p /\ i <= p) added ->
  filter (fun d => is_child_of self d && (dir_path d =? name)%string) added
    = [].
Proof.
  intros Hlt Fa. induction Fa as [|x l (p & Hp & Hle) _ IH]; [reflexivity|].
  simpl. unfold is_child_of at 1. rewrite Hp.
  replace (p =? dir_id self) with false
    by (symmetry; apply Nat.eqb_neq; lia).
  simpl. exact IH.
Qed.

Lemma resolve_again (root : fsnode) (segs : list string) :
  forall self here s ds s',
    wf s -> dir_id self < next_directory s ->
    get_sub_path_directories root self here segs s = Ok ds s' ->
    forall root' here',
      get_sub_path_directories root' self here' segs s' = Ok ds s'.
Proof.
  induction segs as [|current rest IH]; intros self here s ds s' W Hself H
    root' here'; [discriminate|].
  pose proof H as H0. rewrite resolve_cons in H0.
  assert (Hstep : forall d s1,
             wf s1 -> In d (directories s1) ->
             dir_parent d = Some (dir_id self) ->
             dirs_named self current s1 = [d] ->
             match rest with
             | [] => Ok [d] s1
             | _ :: _ => bind (get_sub_path_directories root d
                                 (joinpath here current) rest)
                              (fun tl => ret (d :: tl)) s1
             end = Ok ds s' ->
             get_sub_path_directories root' self here' (current :: rest) s'
               = Ok ds s').
  { intros d s1 W1 Hd Hp Hq Hr. rewrite resolve_cons.
    assert (Hlt : dir_id self < dir_id d) by (eapply wf_parent_lt; eauto).
    destruct rest as [|r rest'].
    - injection Hr as <- <-. now rewrite Hq.
    - unfold bind, ret in Hr.
      destruct (get_sub_path_directories root d (joinpath here current)
                  (r :: rest') s1) as [tl s2|] eqn:Hrec; [|discriminate].
      injection Hr as <- <-.
      destruct (@resolve_chain_post root _ _ _ _ _ _ W1
                  (wf_dir_fresh W1 _ Hd) Hrec)
        as (_ & _ & _ & _ & _ & added & Ea & Fa).
      unfold dirs_named in *. rewrite Ea, filter_app, Hq.
      rewrite (@dirs_named_above self current _ _ Hlt Fa). cbn [app].
      unfold bind, ret.
      now rewrite (IH d (joinpath here current) s1 tl s2 W1
                      (wf_dir_fresh W1 _ Hd) Hrec root'
                      (joinpath here' current)). }
  destruct (dirs_named self current s) as [|d [|d' l]] eqn:Hq.
  - destruct (path_exists root (joinpath here current)); [|discriminate].
    cbv zeta in H0.
    destruct (save_directory_post self current W Hself)
      as (W1 & _ & _ & _ & _).
    refine (Hstep _ _ W1 _ _ _ H0); [| reflexivity |].
    + simpl. apply in_app_iff. right. now left.
    + unfold dirs_named in *. cbn [directories]. rewrite filter_app, Hq.
      cbn [filter app]. unfold is_child_of at 1. cbn [dir_parent dir_path].
      now rewrite Nat.eqb_refl, String.eqb_refl.
  - assert (Hrow : In d (dirs_named self current s)) by (rewrite Hq; now left).
    apply dirs_named_row in Hrow. destruct Hrow as (Hd & Hp & _).
    exact (Hstep _ _ W Hd Hp Hq H0).
  - discriminate.
Qed.

End ResolveAgain.

(** X14.  When [get_sub_path_directories] returns, the directories it
    returns form a parent chain that starts below [self]: the first has
    [self] as its parent, every later one has the one before it as its
    parent.  Each of them is a row of the [Directory] table as the call
    leaves it, and the tables are still well formed (unique keys, keys below
    the next key, a parent's key below its child's). *)
Theorem resolve_parent_chain
    (root : fsnode) (self : Storage.Directory) (here : Path)
    (segs : list string) (s s' : Storage.db) (ds : list Storage.Directory) :
  Storage.wf s ->
  Storage.dir_id self < Storage.next_directory s ->
  Storage.get_sub_path_directories root self here segs s = Storage.Ok ds s' ->
  Storage.wf s' /\
  Storage.linked (Storage.dir_id self) ds /\
  Forall (fun d => In d (Storage.directories s')) ds.
Proof.
  intros W Hself H.
  destruct (@resolve_chain_post root _ _ _ _ _ _ W Hself H)
    as (W' & _ & _ & L & Hin & _).
  now split; [|split].
Qed.

Lemma resolve_parent_chain_witness :
  Storage.wf Scenario.nested_db /\
  Storage.linked 1 [Scenario.artist_dir; Scenario.nested_album_dir] /\
  Forall (fun d => In d (Storage.directories Scenario.nested_db))
         [Scenario.artist_dir; Scenario.nested_album_dir].
Proof.
  apply (@resolve_parent_chain Scenario.nested_fs Scenario.basedir ["lib"]
           ["Artist"; "Album"] Scenario.base_db Scenario.nested_db
           [Scenario.artist_dir; Scenario.nested_album_dir]);
    [exact wf_base_db | simpl; lia | reflexivity].
Defined.

(** X15.  Resolving the same segments again from the same directory finds
    the rows of the first call and writes nothing; it does not look at the
    disk, so it gives the same answer whatever the disk holds by then. *)
Theorem resolve_again_same
    (root root' : fsnode) (self : Storage.Directory) (here here' : Path)
    (segs : list string) (s s' : Storage.db) (ds : list Storage.Directory) :
  Storage.wf s ->
  Storage.dir_id self < Storage.next_directory s ->
  Storage.get_sub_path_directories root self here segs s = Storage.Ok ds s' ->
  Storage.get_sub_path_directories root' self here' segs s'
    = Storage.Ok ds s'.
Proof.
  intros W Hself H.
  exact (@resolve_again root segs self here s ds s' W Hself H root' here').
Qed.

Lemma resolve_again_same_witness :
  Storage.get_sub_path_directories Scenario.empty_lib_fs Scenario.basedir
    ["lib"] ["Artist"; "Album"] Scenario.nested_db
  = Storage.Ok [Scenario.artist_dir; Scenario.nested_album_dir]
               Scenario.nested_db.
Proof.
  apply (@resolve_again_same Scenario.nested_fs Scenario.empty_lib_fs
           Scenario.basedir ["lib"] ["lib"] ["Artist"; "Album"]
           Scenario.base_db Scenario.nested_db
           [Scenario.artist_dir; Scenario.nested_album_dir]);
    [exact wf_base_db | simpl; lia | reflexivity].
Defined.

(** ** Absolute and relative paths *)

Section PathFacts.

Import Storage.

Variable parse_path : string -> Path.

Local Abbreviation absolute_path' := (absolute_path parse_path).

Lemma joinpath_app (b r : Path) (x : string) :
  joinpath (b ++ r) x = b ++ joinpath r x.
Proof.
  unfold joinpath. destruct ((x =? "")%string || (x =? ".")%string);
    [reflexivity | now rewrite app_assoc].
Qed.

Lemma absolute_relative (fuel : nat) (s : db) :
  forall d,
    match absolute_path' fuel s d, relative_path fuel s d with
    | Some a, Some r =>
        exists b, dir_parent b = None /\ (b = d \/ In b (directories s)) /\
                  a = parse_path (dir_path b) ++ r
    | None, None => True
    | _, _ => False
    end.
Proof.
  induction fuel as [|n IH]; intros d; simpl; [exact I|].
  destruct (dir_parent d) as [pid|] eqn:Hp.
  - destruct (find (fun x => dir_id x =? pid) (directories s)) as [p|] eqn:Hf;
      [|exact I].
    specialize (IH p). apply find_some in Hf. destruct Hf as [Hin _].
    destruct (absolute_path' n s p) as [a|], (relative_path n s p) as [r|];
      simpl; try exact IH.
    destruct IH as (b & Hb & Hor & ->).
    exists b. split; [exact Hb|]. split.
    + right. destruct Hor as [->|Hor]; assumption.
    + apply joinpath_app.
  - exists d. split; [exact Hp|]. split; [now left|]. now rewrite app_nil_r.
Qed.

Lemma find_app_found (A : Type) (f : A -> bool) (l l' : list A) (x : A) :
  find f l = Some x -> find f (l ++ l') = Some x.
Proof.
  induction l as [|y l IH]; simpl; [discriminate|].
  destruct (f y); auto.
Qed.

(** Rows saved later do not change the path of a row that had one. *)
Lemma absolute_path_grows (fuel : nat) (s t : db) (added : list Directory) :
  directories t = directories s ++ added ->
  forall d a,
    absolute_path' fuel s d = Some a -> absolute_path' fuel t d = Some a.
Proof.
  intros Ht. induction fuel as [|n IH]; intros d a H; [discriminate|].
  simpl in *. destruct (dir_parent d) as [pid|]; [|exact H].
  destruct (find (fun x => dir_id x =? pid) (directories s)) as [p|] eqn:Hf;
    [|discriminate].
  rewrite Ht, (find_app_found _ _ added Hf).
  destruct (absolute_path' n s p) as [pp|] eqn:Hpp; [|discriminate].
  now rewrite (IH p pp Hpp).
Qed.

(** A key selects the one row that has it. *)
Lemma find_by_id (l : list Directory) (p : Directory) :
  NoDup (map dir_id l) -> In p l ->
  find (fun x => dir_id x =? dir_id p) l = Some p.
Proof.
  induction l as [|y l IH]; simpl; intros N Hin; [contradiction|].
  inversion N as [|? ? Hny N']; subst.
  destruct Hin as [->|Hin]; [now rewrite Nat.eqb_refl|].
  destruct (dir_id y =? dir_id p) eqn:E; [|auto].
  apply Nat.eqb_eq in E. exfalso. apply Hny. rewrite E.
  now apply in_map.
Qed.

Lemma absolute_path_child (fuel : nat) (s : db) (self d : Directory)
    (here : Path) :
  wf s -> In self (directories s) ->
  dir_parent d = Some (dir_id self) ->
  absolute_path' fuel s self = Some here ->
  absolute_path' (S fuel) s d = Some (joinpath here (dir_path d)).
Proof.
  intros W Hin Hp Ha. simpl. rewrite Hp.
  rewrite (find_by_id _ _ (wf_dir_ids W) Hin), Ha. reflexivity.
Qed.

Variable root : fsnode.

Lemma resolve_paths (segs : list string) :
  forall fuel self here s ds s',
    wf s -> In self (directories s) ->
    absolute_path' fuel s self = Some here ->
    get_sub_path_directories root self here segs s = Ok ds s' ->
    forall k d,
      nth_error ds k = Some d ->
      absolute_path' (fuel + S k) s' d
        = Some (joins here (firstn (S k) segs)).
Proof.
  induction segs as [|current rest IH]; intros fuel self here s ds s' W Hin Ha H;
    [discriminate|].
  pose proof (wf_dir_fresh W _ Hin) as Hself.
  rewrite resolve_cons in H.
  assert (Hstep : forall d s1 added,
             wf s1 -> directories s1 = directories s ++ added ->
             In d (directories s1) -> dir_parent d = Some (dir_id self) ->
             dir_path d = current ->
             match rest with
             | [] => Ok [d] s1
             | _ :: _ => bind (get_sub_path_directories root d
                                 (joinpath here current) rest)
                              (fun tl => ret (d :: tl)) s1
             end = Ok ds s' ->
             forall k d0,
               nth_error ds k = Some d0 ->
               absolute_path' (fuel + S k) s' d0
                 = Some (joins here (firstn (S k) (current :: rest)))).
  { intros d s1 added W1 Ea Hd Hp Hn Hr.
    assert (Hin1 : In self (directories s1))
      by (rewrite Ea; apply in_app_iff; now left).
    assert (Had : absolute_path' (S fuel) s1 d = Some (joinpath here current)).
    { rewrite <- Hn. apply (@absolute_path_child fuel s1 self d here W1 Hin1 Hp).
      eapply absolute_path_grows; eauto. }
    destruct rest as [|r rest'].
    - injection Hr as <- <-. intros [|k] d0 Hk; simpl in Hk.
      + injection Hk as <-. now replace (fuel + 1) with (S fuel) by lia.
      + destruct k; discriminate.
    - unfold bind, ret in Hr.
      destruct (get_sub_path_directories root d (joinpath here current)
                  (r :: rest') s1) as [tl s2|] eqn:Hrec; [|discriminate].
      injection Hr as <- <-.
      intros [|k] d0 Hk; simpl in Hk.
      + injection Hk as <-.
        destruct (@resolve_chain_post root _ _ _ _ _ _ W1
                    (wf_dir_fresh W1 _ Hd) Hrec)
          as (_ & _ & _ & _ & _ & added2 & Ea2 & _).
        replace (fuel + 1) with (S fuel) by lia.
        eapply absolute_path_grows; eauto.
      + replace (fuel + S (S k)) with (S fuel + S k) by lia.
        exact (IH (S fuel) d (joinpath here current) s1 tl s2 W1 Hd Had Hrec
                  k d0 Hk). }
  destruct (dirs_named self current s) as [|d [|d' l]] eqn:Hq.
  - destruct (path_exists root (joinpath here current)); [|discriminate].
    cbv zeta in H.
    destruct (save_directory_post self current W Hself)
      as (W1 & _ & _ & _ & _).
    refine (Hstep _ _ _ W1 eq_refl _ _ _ H); [|reflexivity|reflexivity].
    simpl. apply in_app_iff. right. now left.
  - assert (Hrow : In d (dirs_named self current s)) by (rewrite Hq; now left).
    apply dirs_named_row in Hrow. destruct Hrow as (Hd & Hp & Hn).
    refine (Hstep _ _ [] W _ Hd Hp Hn H). now rewrite app_nil_r.
  - discriminate.
Qed.

End PathFacts.

(** X16.  [Directory.absolute_path] and [Directory.relative_path] walk the
    same parent chain: one is defined exactly when the other is, and the
    absolute path is then the relative path put behind the path of a
    directory without parent, which is the directory itself or a row of the
    table (the base directory the chain ends in). *)
Theorem absolute_path_base_relative
    (parse_path : string -> Path) (fuel : nat) (s : Storage.db)
    (d : Storage.Directory) :
  match Storage.absolute_path parse_path fuel s d,
        Storage.relative_path fuel s d with
  | Some a, Some r =>
      exists b,
        Storage.dir_parent b = None /\
        (b = d \/ In b (Storage.directories s)) /\
        a = parse_path (Storage.dir_path b) ++ r
  | None, None => True
  | _, _ => False
  end.
Proof. apply absolute_relative. Qed.

(** The two paths of [/lib/Artist/Album]. *)
Example absolute_relative_nested :
  Storage.absolute_path (fun _ => ["lib"]) 3 Scenario.nested_db
    Scenario.nested_album_dir = Some ["lib"; "Artist"; "Album"] /\
  Storage.relative_path 3 Scenario.nested_db Scenario.nested_album_dir
    = Some ["Artist"; "Album"].
Proof. split; reflexivity. Qed.

(** X17.  The directories [get_sub_path_directories] returns lie where the
    segments say: when [self] is a row whose absolute path is [here], the
    absolute path of the [k]-th returned directory, worked out from the rows
    the call leaves, is [here] joined with the first [k] segments.  (This is
    also what makes it sound to hand the callee [here / current] instead of
    letting it climb the parent rows again.) *)
Theorem resolve_absolute_paths
    (parse_path : string -> Path) (root : fsnode) (fuel : nat)
    (self : Storage.Directory) (here : Path) (segs : list string)
    (s s' : Storage.db) (ds : list Storage.Directory) :
  Storage.wf s ->
  In self (Storage.directories s) ->
  Storage.absolute_path parse_path fuel s self = Some here ->
  Storage.get_sub_path_directories root self here segs s = Storage.Ok ds s' ->
  forall k d,
    nth_error ds k = Some d ->
    Storage.absolute_path parse_path (fuel + S k) s' d
      = Some (joins here (firstn (S k) segs)).
Proof.
  intros W Hin Ha H k d Hk.
  exact (@resolve_paths parse_path root segs fuel self here s ds s'
           W Hin Ha H k d Hk).
Qed.

Lemma resolve_absolute_paths_witness :
  Storage.absolute_path (fun _ => ["lib"]) 3 Scenario.nested_db
    Scenario.nested_album_dir = Some ["lib"; "Artist"; "Album"].
Proof.
  apply (@resolve_absolute_paths (fun _ => ["lib"]) Scenario.nested_fs 1
           Scenario.basedir ["lib"] ["Artist"; "Album"] Scenario.base_db
           Scenario.nested_db [Scenario.artist_dir; Scenario.nested_album_dir]
           wf_base_db (or_introl eq_refl) eq_refl eq_refl 1
           Scenario.nested_album_dir eq_refl).
Defined.

(** ** Filling in metadata *)

Section BackfillFacts.

Import Backfill.

Variable D : Type.
Variable normalize_name : string -> string.
Variable tinytag_get : string -> option (Meta.Tag D).
Variable parse_path : string -> Path.
Variable depth : nat.
Variable now : nat -> nat.

Local Abbreviation world' := (world D).
Local Abbreviation update_metadata' :=
  (update_metadata normalize_name tinytag_get parse_path depth now).
Local Abbreviation update_each' :=
  (update_each normalize_name tinytag_get parse_path depth now).
Local Abbreviation run' :=
  (index_unindexed_metadata normalize_name tinytag_get parse_path depth now).
Local Abbreviation path_of := (file_absolute_path parse_path depth).
Local Abbreviation ids s := (map Storage.file_id (Storage.files s)).

Lemma absolute_path_dirs (fuel : nat) (s t : Storage.db) :
  Storage.directories t = Storage.directories s ->
  forall d, Storage.absolute_path parse_path fuel t d
            = Storage.absolute_path parse_path fuel s d.
Proof.
  intros E. induction fuel as [|n IH]; intros d; [reflexivity|].
  simpl. rewrite E. destruct (Storage.dir_parent d); [|reflexivity].
  destruct (find _ (Storage.directories s)); [|reflexivity].
  now rewrite IH.
Qed.

Lemma path_of_dirs (s t : Storage.db) (f : Storage.File) :
  Storage.directories t = Storage.directories s ->
  path_of t f = path_of s f.
Proof.
  intros E. unfold file_absolute_path. rewrite E.
  destruct (find _ (Storage.directories s)); [|reflexivity].
  now rewrite (@absolute_path_dirs depth s t E).
Qed.

Lemma existsb_id (f : Storage.File) (l : list Storage.File) :
  existsb (fun x => Storage.file_id x =? Storage.file_id f) l = true <->
  In (Storage.file_id f) (map Storage.file_id l).
Proof.
  rewrite existsb_exists, in_map_iff. split.
  - intros (x & Hx & E). apply Nat.eqb_eq in E. now exists x.
  - intros (x & E & Hx). exists x. split; [exact Hx | now apply Nat.eqb_eq].
Qed.

(** Saving a row keeps the primary keys unique. *)
Lemma save_ids (f : Storage.File) (s : Storage.db) :
  NoDup (ids s) -> NoDup (ids (save f s)).
Proof.
  intros N. unfold save. cbn [Storage.files].
  destruct (existsb _ (Storage.files s)) eqn:Ex.
  - replace (map Storage.file_id (map _ (Storage.files s))) with (ids s);
      [exact N|].
    rewrite map_map. apply map_ext. intros x.
    destruct (Nat.eqb_spec (Storage.file_id x) (Storage.file_id f));
      congruence.
  - rewrite map_app. cbn [map].
    assert (Hn : ~ In (Storage.file_id f) (ids s)).
    { intros Hin. apply existsb_id in Hin. congruence. }
    clear Ex. induction (ids s) as [|a l IH]; simpl.
    + constructor; [tauto | constructor].
    + inversion N as [|? ? Ha N']; subst. constructor.
      * rewrite in_app_iff. simpl in *. intuition.
      * apply IH; simpl in *; intuition.
Qed.

(** Saving a row leaves the rows with other keys alone. *)
Lemma save_keeps (f x : Storage.File) (s : Storage.db) :
  Storage.file_id x <> Storage.file_id f ->
  In x (Storage.files s) -> In x (Storage.files (save f s)).
Proof.
  intros Hne Hin. unfold save. cbn [Storage.files].
  destruct (existsb _ (Storage.files s)).
  - apply in_map_iff. exists x. split; [|exact Hin].
    destruct (Nat.eqb_spec (Storage.file_id x) (Storage.file_id f));
      [contradiction | reflexivity].
  - apply in_app_iff. now left.
Qed.

(** A row found after a save is the saved row or was there before. *)
Lemma save_rows (f x : Storage.File) (s : Storage.db) :
  In x (Storage.files (save f s)) ->
  x = f \/ (In x (Storage.files s) /\ Storage.file_id x <> Storage.file_id f).
Proof.
  unfold save. cbn [Storage.files].
  destruct (existsb (fun y => Storage.file_id y =? Storage.file_id f)
                    (Storage.files s)) eqn:Ex.
  - intros Hin. apply in_map_iff in Hin. destruct Hin as (y & E & Hy).
    destruct (Nat.eqb_spec (Storage.file_id y) (Storage.file_id f)) as [Hi|Hi];
      [now left | right; subst; now split].
  - intros Hin. apply in_app_iff in Hin. destruct Hin as [Hin|[<-|[]]];
      [|now left].
    destruct (Nat.eq_dec (Storage.file_id x) (Storage.file_id f)) as [E|E];
      [|right; now split].
    exfalso.
    assert (Hex : existsb (fun y => Storage.file_id y =? Storage.file_id f)
                          (Storage.files s) = true).
    { apply existsb_exists. exists x. split; [exact Hin|now apply Nat.eqb_eq]. }
    congruence.
Qed.

(** Overwriting a known row with one of the same identity changes no
    identity. *)
Lemma save_identity (f : Storage.File) (s : Storage.db) :
  NoDup (ids s) ->
  In (identity f) (map identity (Storage.files s)) ->
  map identity (Storage.files (save f s)) = map identity (Storage.files s).
Proof.
  intros N Hin. apply in_map_iff in Hin. destruct Hin as (x0 & E0 & Hx0).
  assert (Hid : Storage.file_id x0 = Storage.file_id f)
    by (unfold identity in E0; congruence).
  unfold save. cbn [Storage.files].
  replace (existsb _ (Storage.files s)) with true.
  - rewrite map_map. apply map_ext_in. intros x Hx.
    destruct (Nat.eqb_spec (Storage.file_id x) (Storage.file_id f)) as [E|E];
      [|reflexivity].
    assert (x = x0) by (eapply NoDup_map_eq; eauto; congruence).
    subst x0. now symmetry.
  - symmetry. apply existsb_exists. exists x0.
    split; [exact Hx0 | now apply Nat.eqb_eq].
Qed.

Lemma ids_of_identity (l l' : list Storage.File) :
  map identity l' = map identity l ->
  map Storage.file_id l' = map Storage.file_id l.
Proof.
  intros E.
  assert (H : forall k : list Storage.File,
             map Storage.file_id k = map (fun t => fst (fst t)) (map identity k)).
  { intros k. rewrite map_map. reflexivity. }
  now rewrite (H l), (H l'), E.
Qed.

(** What one [update_metadata] that returns has written. *)
Lemma update_metadata_done (f : Storage.File) (w w' : world') :
  update_metadata' f w = Done w' ->
  exists f',
    identity f' = identity f /\ unindexed f' = false /\
    index w' = save f' (index w).
Proof.
  unfold update_metadata. destruct (path_of (index w) f) as [p|]; [|discriminate].
  destruct (Meta.create_from_path _ _ _ _) as [r m|e m]; [|discriminate].
  intros H. injection H as <-. eexists.
  split; [|split]; [| |reflexivity]; reflexivity.
Qed.

Lemma update_metadata_failed (f : Storage.File) (w w' : world') (e : exn) :
  update_metadata' f w = Failed e w' -> index w' = index w.
Proof.
  unfold update_metadata. destruct (path_of (index w) f) as [p|].
  - destruct (Meta.create_from_path _ _ _ _) as [r m|e0 m]; [discriminate|].
    intros H. now injection H as _ <-.
  - intros H. now injection H as _ <-.
Qed.

(** The loop over the rows [fs], when it returns. *)
Lemma update_each_done (fs : list Storage.File) :
  forall w w',
    NoDup (ids (index w)) ->
    Forall (fun g => In (identity g) (map identity (Storage.files (index w))))
           fs ->
    update_each' fs w = Done w' ->
    Storage.directories (index w') = Storage.directories (index w) /\
    Storage.next_directory (index w') = Storage.next_directory (index w) /\
    Storage.next_file (index w') = Storage.next_file (index w) /\
    map identity (Storage.files (index w'))
      = map identity (Storage.files (index w)) /\
    (forall x, In x (Storage.files (index w')) ->
               unindexed x = false \/
               (In x (Storage.files (index w)) /\
                forall g, In g fs -> Storage.file_id g <> Storage.file_id x)) /\
    (forall x, In x (Storage.files (index w)) ->
               (forall g, In g fs -> Storage.file_id g <> Storage.file_id x) ->
               In x (Storage.files (index w'))).
Proof.
  induction fs as [|g fs IH]; intros w w' N K H.
  - injection H as <-.
    split; [reflexivity|]. split; [reflexivity|]. split; [reflexivity|].
    split; [reflexivity|]. split; [|auto].
    intros x Hx. right. split; [exact Hx | intros g []].
  - simpl in H.
    destruct (update_metadata' g w) as [w1|] eqn:Hg; [|discriminate].
    destruct (@update_metadata_done g w w1 Hg) as (g' & Eg & Sg & Ew).
    inversion K as [|? ? Kg Kfs]; subst.
    assert (Kg' : In (identity g') (map identity (Storage.files (index w))))
      by now rewrite Eg.
    pose proof (@save_identity g' (index w) N Kg') as Ei. rewrite <- Ew in Ei.
    assert (N1 : NoDup (ids (index w1)))
      by (rewrite (@ids_of_identity _ _ Ei); exact N).
    assert (K1 : Forall (fun g0 => In (identity g0)
                           (map identity (Storage.files (index w1)))) fs)
      by (rewrite Ei; exact Kfs).
    assert (Eid : Storage.file_id g' = Storage.file_id g)
      by (unfold identity in Eg; congruence).
    destruct (IH w1 w' N1 K1 H) as (Ed & End & Enf & Em & Hs & Hk).
    rewrite Ew in Ed, End, Enf. cbn in Ed, End, Enf.
    split; [exact Ed|]. split; [exact End|]. split; [exact Enf|].
    split; [congruence|]. split.
    + intros x Hx. destruct (Hs x Hx) as [S|[Hx1 Hn]]; [now left|].
      rewrite Ew in Hx1. apply save_rows in Hx1.
      destruct Hx1 as [->|[Hx0 Hne]]; [now left|].
      right. split; [exact Hx0|].
      intros g0 [<-|Hg0]; [congruence | auto].
    + intros x Hx Hn. apply Hk.
      * rewrite Ew. apply save_keeps; [|exact Hx].
        rewrite Eid. intros E. apply (Hn g (or_introl eq_refl)). congruence.
      * intros g0 Hg0. apply Hn. now right.
Qed.

Lemma unindexed_known (s : Storage.db) :
  Forall (fun g => In (identity g) (map identity (Storage.files s)))
         (filter unindexed (Storage.files s)).
Proof.
  apply Forall_forall. intros g Hg. apply filter_In in Hg.
  apply in_map. tauto.
Qed.

Lemma run_done (w w' : world') :
  NoDup (ids (index w)) ->
  run' w = Done w' ->
  Storage.directories (index w') = Storage.directories (index w) /\
  map identity (Storage.files (index w'))
    = map identity (Storage.files (index w)) /\
  Forall (fun x => unindexed x = false) (Storage.files (index w')) /\
  (forall x, In x (Storage.files (index w)) -> unindexed x = false ->
             In x (Storage.files (index w'))) /\
  run' w' = Done w'.
Proof.
  intros N H. unfold index_unindexed_metadata in H.
  destruct (@update_each_done _ w w' N (unindexed_known (index w)) H)
    as (Ed & _ & _ & Em & Hs & Hk).
  assert (Hall : Forall (fun x => unindexed x = false)
                        (Storage.files (index w'))).
  { apply Forall_forall. intros x Hx.
    destruct (Hs x Hx) as [S|[Hx0 Hn]]; [exact S|].
    destruct (unindexed x) eqn:U; [|reflexivity].
    exfalso. apply (Hn x); [|reflexivity]. apply filter_In. now split. }
  split; [exact Ed|]. split; [exact Em|]. split; [exact Hall|]. split.
  - intros x Hx S. apply Hk; [exact Hx|].
    intros g Hg E. apply filter_In in Hg. destruct Hg as [Hg U].
    assert (g = x) by (eapply NoDup_map_eq; eauto). subst g. congruence.
  - unfold index_unindexed_metadata.
    replace (filter unindexed (Storage.files (index w'))) with
      (@nil Storage.File); [reflexivity|].
    symmetry. apply filter_none. rewrite Forall_forall in Hall. exact Hall.
Qed.

(** An unparsable year makes the extraction raise, whatever the tables
    hold and whatever the fields read before it are. *)
Lemma create_from_path_bad_year (path : string) (tag : Meta.Tag D)
    (y : string) (s : Meta.db D) :
  tinytag_get path = Some tag ->
  Meta.tag_year tag = Some y ->
  Meta.truthy (Some y) = true ->
  Meta.py_int y = None ->
  exists e s',
    Meta.create_from_path normalize_name tinytag_get path s = Meta.Raise _ e s'.
Proof.
  intros Ht Hy Htr Hpy. unfold Meta.create_from_path. rewrite Ht.
  assert (Hyear : forall u : Meta.db D,
             Meta.int_or_none (Meta.tag_year tag) u
             = Meta.Raise _ Meta.ValueError u).
  { intros u. rewrite Hy. unfold Meta.int_or_none. now rewrite Htr, Hpy. }
  unfold Meta.bind at 1.
  destruct (Meta.artist_get_for_name normalize_name (Meta.tag_artist tag) s)
    as [artist s1|]; [|eauto].
  unfold Meta.bind at 1.
  destruct (Meta.artist_get_for_name normalize_name (Meta.tag_albumartist tag)
              s1) as [albumartist s2|]; [|eauto].
  unfold Meta.bind at 1.
  match goal with
  | |- context [match ?m s2 with Meta.Ok _ _ => _ | Meta.Raise _ _ _ => _ end] =>
      destruct (m s2) as [album s3|]; [|eauto]
  end.
  unfold Meta.bind at 1.
  match goal with
  | |- context [match ?m s3 with Meta.Ok _ _ => _ | Meta.Raise _ _ _ => _ end] =>
      destruct (m s3) as [genre s4|]; [|eauto]
  end.
  unfold Meta.bind at 1.
  destruct (Meta.int_or_none (Meta.tag_track tag) s4) as [track s5|]; [|eauto].
  unfold Meta.bind at 1.
  destruct (Meta.int_or_none (Meta.tag_track_total tag) s5) as [total s6|];
    [|eauto].
  unfold Meta.bind at 1. rewrite Hyear. eauto.
Qed.

Section Blocked.

Variable f : Storage.File.
Variable p : Path.
Variable tag : Meta.Tag D.
Variable y : string.
Hypothesis Htag : tinytag_get (str_of_path p) = Some tag.
Hypothesis Hyear : Meta.tag_year tag = Some y.
Hypothesis Htruthy : Meta.truthy (Some y) = true.
Hypothesis Hint : Meta.py_int y = None.

Lemma update_metadata_blocked (w : world') :
  path_of (index w) f = Some p ->
  exists e w', update_metadata' f w = Failed e w' /\ index w' = index w.
Proof.
  intros Hp. unfold update_metadata. rewrite Hp.
  destruct (@create_from_path_bad_year (str_of_path p) tag y (meta w)
              Htag Hyear Htruthy Hint) as (e & m & ->).
  eauto.
Qed.

Lemma update_each_blocked (fs : list Storage.File) :
  forall w,
    NoDup (ids (index w)) ->
    NoDup (map Storage.file_id fs) ->
    In f fs -> In f (Storage.files (index w)) ->
    path_of (index w) f = Some p ->
    exists e w',
      update_each' fs w = Failed e w' /\
      In f (Storage.files (index w')) /\
      Storage.directories (index w') = Storage.directories (index w) /\
      NoDup (ids (index w')).
Proof.
  induction fs as [|g fs IH]; intros w N Nfs Hf Hin Hp; [contradiction|].
  simpl. inversion Nfs as [|? ? Hng Nfs']; subst.
  destruct (update_metadata' g w) as [w1|e w1] eqn:Hg.
  - destruct Hf as [->|Hf].
    + destruct (update_metadata_blocked w Hp) as (e & w' & E & _). congruence.
    + destruct (@update_metadata_done g w w1 Hg) as (g' & Eg & _ & Ew).
      assert (Eid : Storage.file_id g' = Storage.file_id g)
        by (unfold identity in Eg; congruence).
      assert (Hne : Storage.file_id f <> Storage.file_id g').
      { rewrite Eid. intros E. apply Hng. rewrite <- E. now apply in_map. }
      assert (Ed : Storage.directories (index w1) = Storage.directories (index w))
        by now rewrite Ew.
      destruct (IH w1) as (e & w' & E & Hf' & Ed' & N').
      * rewrite Ew. now apply save_ids.
      * exact Nfs'.
      * exact Hf.
      * rewrite Ew. now apply save_keeps.
      * now rewrite (@path_of_dirs (index w) (index w1) f Ed).
      * exists e, w'. repeat split; auto. congruence.
  - exists e, w1. rewrite (@update_metadata_failed g w w1 e Hg). auto.
Qed.

End Blocked.

(** What one call writes on both sides. *)
Lemma update_metadata_effect (f : Storage.File) (w w' : world') :
  update_metadata' f w = Done w' ->
  exists f',
    index w' = save f' (index w) /\
    identity f' = identity f /\
    Storage.file_meta_indexed_at f' = Some (now (ticks w)) /\
    ticks w' = S (ticks w) /\
    ((Storage.file_meta_data f' = None /\ meta w' = meta w) \/
     exists m,
       Storage.file_meta_data f' = Some (Meta.md_id m) /\
       Meta.md_id m = Meta.next_metadata (meta w) /\
       Meta.metadata (meta w') = Meta.metadata (meta w) ++ [m]).
Proof.
  unfold update_metadata. destruct (path_of (index w) f) as [p|]; [|discriminate].
  pose proof (@create_from_path_effect D normalize_name tinytag_get
                (str_of_path p) (meta w)) as He.
  destruct (Meta.create_from_path _ _ _ _) as [[m|] s'|e s']; [| |discriminate].
  - intros H. injection H as <-. eexists.
    split; [reflexivity|]. split; [reflexivity|]. split; [reflexivity|].
    split; [reflexivity|]. right. exists m.
    destruct He as (_ & _ & _ & Hm & Hi). now split; [|split].
  - intros H. injection H as <-. eexists.
    split; [reflexivity|]. split; [reflexivity|]. split; [reflexivity|].
    split; [reflexivity|]. left. split; [reflexivity|]. exact He.
Qed.

End BackfillFacts.

(** X19.  When [File.index_unindexed_metadata] returns, every [File] row
    carries a [meta_indexed_at] date, so a second run selects nothing and
    leaves both groups of tables and the clock alone.  The run writes only
    the two metadata fields: the [Directory] table is the same, the rows are
    the same files in the same order (primary key, name, directory), and a
    row that carried a date before the run is still there as it was. *)
Theorem backfill_stamps_all
    (D : Type) (normalize_name : string -> string)
    (tinytag_get : string -> option (Meta.Tag D))
    (parse_path : string -> Path) (depth : nat) (now : nat -> nat)
    (w w' : Backfill.world D) :
  NoDup (map Storage.file_id (Storage.files (Backfill.index w))) ->
  Backfill.index_unindexed_metadata normalize_name tinytag_get parse_path
    depth now w = Backfill.Done w' ->
  Storage.directories (Backfill.index w')
    = Storage.directories (Backfill.index w) /\
  map Backfill.identity (Storage.files (Backfill.index w'))
    = map Backfill.identity (Storage.files (Backfill.index w)) /\
  Forall (fun x => Backfill.unindexed x = false)
         (Storage.files (Backfill.index w')) /\
  (forall x, In x (Storage.files (Backfill.index w)) ->
             Backfill.unindexed x = false ->
             In x (Storage.files (Backfill.index w'))) /\
  Backfill.index_unindexed_metadata normalize_name tinytag_get parse_path
    depth now w' = Backfill.Done w'.
Proof.
  intros N H.
  exact (@run_done D normalize_name tinytag_get parse_path depth now w w' N H).
Qed.

Lemma backfill_stamps_all_witness :
  Backfill.index_unindexed_metadata (fun n => n) Scenario.read_fails
    (fun _ => ["lib"]) 3 (fun n => 20 + n)
    (Backfill.mkWorld Scenario.empty_meta_db
       (Storage.mkDb [Scenario.basedir]
                     [Storage.mkFile 1 "track.flac" 1 (Some 20) None] 2 3) 1)
  = Backfill.Done
      (Backfill.mkWorld Scenario.empty_meta_db
         (Storage.mkDb [Scenario.basedir]
                       [Storage.mkFile 1 "track.flac" 1 (Some 20) None] 2 3) 1).
Proof.
  refine (proj2 (proj2 (proj2 (proj2
    (@backfill_stamps_all nat (fun n => n) Scenario.read_fails
       (fun _ => ["lib"]) 3 (fun n => 20 + n)
       (Backfill.mkWorld Scenario.empty_meta_db Scenario.kept_db 0)
       _ _ eq_refl))))).
  repeat constructor. simpl. tauto.
Defined.

(** X20.  One [File.update_metadata] that returns saves the row of the file
    with the time of the call as [meta_indexed_at] and the same primary key,
    name and directory.  Either the tags could not be read, and then
    [meta_data] is null and no metadata table has changed, or [meta_data] is
    the key of one new [MetaData] row, the last of its table, whose key was
    the next free one. *)
Theorem update_metadata_links
    (D : Type) (normalize_name : string -> string)
    (tinytag_get : string -> option (Meta.Tag D))
    (parse_path : string -> Path) (depth : nat) (now : nat -> nat)
    (f : Storage.File) (w w' : Backfill.world D) :
  Backfill.update_metadata normalize_name tinytag_get parse_path depth now f w
    = Backfill.Done w' ->
  exists f',
    Backfill.index w' = Backfill.save f' (Backfill.index w) /\
    Backfill.identity f' = Backfill.identity f /\
    Storage.file_meta_indexed_at f' = Some (now (Backfill.ticks w)) /\
    Backfill.ticks w' = S (Backfill.ticks w) /\
    ((Storage.file_meta_data f' = None /\ Backfill.meta w' = Backfill.meta w) \/
     exists m,
       Storage.file_meta_data f' = Some (Meta.md_id m) /\
       Meta.md_id m = Meta.next_metadata (Backfill.meta w) /\
       Meta.metadata (Backfill.meta w')
         = Meta.metadata (Backfill.meta w) ++ [m]).
Proof.
  intros H.
  exact (@update_metadata_effect D normalize_name tinytag_get parse_path depth
           now f w w' H).
Qed.

Lemma update_metadata_links_witness :
  exists f',
    Storage.mkDb [Scenario.basedir]
                 [Storage.mkFile 1 "track.flac" 1 (Some 20) (Some 1)] 2 3
      = Backfill.save f' Scenario.kept_db /\
    Backfill.identity f' = (1, "track.flac", 1) /\
    Storage.file_meta_indexed_at f' = Some 20 /\
    1 = 1 /\
    ((Storage.file_meta_data f' = None /\
      Scenario.plain_db = Scenario.empty_meta_db) \/
     exists m,
       Storage.file_meta_data f' = Some (Meta.md_id m) /\
       Meta.md_id m = 1 /\
       Meta.metadata Scenario.plain_db = [] ++ [m]).
Proof.
  apply (@update_metadata_links nat (fun n => n) Scenario.read_plain
           (fun _ => ["lib"]) 3 (fun n => 20 + n)
           (Storage.mkFile 1 "track.flac" 1 None None)
           (Backfill.mkWorld Scenario.empty_meta_db Scenario.kept_db 0)
           (Backfill.mkWorld Scenario.plain_db
              (Storage.mkDb [Scenario.basedir]
                 [Storage.mkFile 1 "track.flac" 1 (Some 20) (Some 1)] 2 3) 1)).
  reflexivity.
Defined.

(** X21.  A file whose year tag is ASCII text, not empty, and not an
    integer literal blocks the backfill ([2000-10-02] is such a text).
    While its row is without [meta_indexed_at],
    [File.index_unindexed_metadata] does not return: it raises, at that file
    or at one before it.  The row is then still in the table and still
    without date, and the directories and the uniqueness of the keys are as
    before, so the next run is blocked in the same way. *)
Theorem backfill_blocked_by_year
    (D : Type) (normalize_name : string -> string)
    (tinytag_get : string -> option (Meta.Tag D))
    (parse_path : string -> Path) (depth : nat) (now : nat -> nat)
    (f : Storage.File) (p : Path) (tag : Meta.Tag D) (y : string)
    (w : Backfill.world D) :
  NoDup (map Storage.file_id (Storage.files (Backfill.index w))) ->
  In f (Storage.files (Backfill.index w)) ->
  Backfill.unindexed f = true ->
  Backfill.file_absolute_path parse_path depth (Backfill.index w) f = Some p ->
  tinytag_get (str_of_path p) = Some tag ->
  Meta.tag_year tag = Some y ->
  Meta.is_ascii y = true ->
  Meta.truthy (Some y) = true ->
  Meta.py_int y = None ->
  exists e w',
    Backfill.index_unindexed_metadata normalize_name tinytag_get parse_path
      depth now w = Backfill.Failed e w' /\
    In f (Storage.files (Backfill.index w')) /\
    Backfill.file_absolute_path parse_path depth (Backfill.index w') f
      = Some p /\
    NoDup (map Storage.file_id (Storage.files (Backfill.index w'))).
Proof.
  intros N Hin Hu Hp Htag Hyear _ Htruthy Hint.
  destruct (@update_each_blocked D normalize_name tinytag_get parse_path depth
              now f p tag y Htag Hyear Htruthy Hint
              (filter Backfill.unindexed (Storage.files (Backfill.index w)))
              w N)
    as (e & w' & E & Hf & Ed & N').
  - now apply NoDup_map_filter.
  - apply filter_In. now split.
  - exact Hin.
  - exact Hp.
  - exists e, w'. split; [exact E|]. split; [exact Hf|]. split; [|exact N'].
    rewrite <- Hp.
    exact (@path_of_dirs parse_path depth (Backfill.index w)
             (Backfill.index w') f Ed).
Qed.

Lemma backfill_blocked_by_year_witness :
  exists e w',
    Backfill.index_unindexed_metadata (fun n => n) Scenario.read_dated
      (fun _ => ["lib"]) 3 (fun n => 20 + n)
      (Backfill.mkWorld Scenario.empty_meta_db Scenario.kept_db 0)
      = Backfill.Failed e w' /\
    In (Storage.mkFile 1 "track.flac" 1 None None)
       (Storage.files (Backfill.index w')) /\
    Backfill.file_absolute_path (fun _ => ["lib"]) 3 (Backfill.index w')
      (Storage.mkFile 1 "track.flac" 1 None None)
      = Some ["lib"; "track.flac"] /\
    NoDup (map Storage.file_id (Storage.files (Backfill.index w'))).
Proof.
  apply (@backfill_blocked_by_year nat (fun n => n) Scenario.read_dated
           (fun _ => ["lib"]) 3 (fun n => 20 + n)
           (Storage.mkFile 1 "track.flac" 1 None None)
           ["lib"; "track.flac"] Scenario.dated_tag "2000-10-02"
           (Backfill.mkWorld Scenario.empty_meta_db Scenario.kept_db 0));
    try reflexivity.
  - repeat constructor. simpl. tauto.
  - simpl. tauto.
Defined.

